(** * RESP parser of the codis proxy: [pkg/proxy/parser/parser.go]

    A shallow embedding of the decoder ([Parse]), the encoder ([Bytes]), the
    integer codec ([Btoi]) and the key-extraction helpers ([Op],
    [Keys], [Key]), followed by the properties the specification states about
    them.

    Modelling conventions.
    - A Go [[]byte] is a [list byte]; a Go [string] is a [list byte] too.
    - A Go [int] is a 64-bit two's-complement integer: a [Z] kept in range by
      [wrap]; a [uint8] is a [Z] reduced by [uint8].
    - A [*bufio.Reader] is the list of bytes not yet read; the stream ends
      (io.EOF) where the list ends.  Functions that read return what is left.
    - A Go [(value, error)] result is a [res]; a run-time panic (index or
      slice out of range) is [Panic]; [Timeout] is only what the fuel-indexed
      [Parse] answers when its fuel is used up.
    - A nil slice and an empty slice are both [[]]: the code only ever takes
      [len] of, indexes or ranges over [Resp.Multi].
    - [make] always succeeds: memory is not bounded.
    - [errors.Trace] keeps the error it wraps; an error is identified by the
      message that created it, without the values formatted into it. *)

From Stdlib Require Import String Strings.Byte DecimalString.
From Stdlib Require Import ZArith List Bool Lia.
From Stdlib Require DecimalPos DecimalFacts.
Import ListNotations.
Local Open Scope string_scope.
Local Open Scope Z_scope.
Local Open Scope list_scope.

(** ** Results and errors *)

(** The errors the package creates, by the message that creates them. *)
Inductive error : Type :=
| EOF               (* io.EOF from ReadBytes, or from ReadFull with nothing read *)
| ErrUnexpectedEOF  (* io.ErrUnexpectedEOF from ReadFull *)
| InvalidPacket     (* "invalid redis packet": readLine *)
| InvalidNumber     (* "Invalid number": Btoi *)
| ProtocolError     (* "redis protocol error": Parse *)
| BadTerminator     (* "should be just 0": ReadBulk *)
| InvalidResp.      (* "invalid resp": Op, defaultGetKeys *)

Inductive res (A : Type) : Type :=
| Ok (a : A)
| Err (e : error)
| Panic
| Timeout.

Arguments Ok {A} a.
Arguments Err {A} e.
Arguments Panic {A}.
Arguments Timeout {A}.

Definition bind {A B : Type} (x : res A) (k : A -> res B) : res B :=
  match x with
  | Ok a => k a
  | Err e => Err e
  | Panic => Panic
  | Timeout => Timeout
  end.

Notation "x <- e ;; k" := (bind e (fun x => k))
  (at level 61, e at next level, right associativity).
Notation "' p <- e ;; k" := (bind e (fun p => k))
  (at level 61, p pattern, e at next level, right associativity).

(** ** Bytes, slices and machine integers *)

Definition bytes (s : string) : list byte := list_byte_of_string s.

Definition code (c : byte) : Z := Z.of_N (Byte.to_N c).

Definition len {A : Type} (l : list A) : Z := Z.of_nat (length l).

(** Go [int]: 64 bits, two's complement, silent wrap-around. *)
Definition wrap (z : Z) : Z := (z + 2 ^ 63) mod 2 ^ 64 - 2 ^ 63.

(** Go [uint8(z)] for a non-negative [z]. *)
Definition uint8 (z : Z) : Z := z mod 256.

(** [b[i]]: panics out of range. *)
Definition index {A : Type} (b : list A) (i : Z) : res A :=
  if (i <? 0) then Panic
  else match nth_error b (Z.to_nat i) with
       | Some x => Ok x
       | None => Panic
       end.

(** [b[lo:hi]]: panics unless [0 <= lo <= hi <= len b]. *)
Definition slice {A : Type} (b : list A) (lo hi : Z) : res (list A) :=
  if (0 <=? lo) && (lo <=? hi) && (hi <=? len b)
  then Ok (firstn (Z.to_nat (hi - lo)) (skipn (Z.to_nat lo) b))
  else Panic.

(** [b[lo:]] *)
Definition sliceFrom {A : Type} (b : list A) (lo : Z) : res (list A) :=
  slice b lo (len b).

Definition CR : byte := x0d.
Definition LF : byte := x0a.
Definition SP : byte := x20.

(** ** Package-level variables *)

Definition NEW_LINE : list byte := [CR; LF].

Inductive RespType : Type :=
| ErrorResp | SimpleString | IntegerResp | BulkResp | MultiResp | NoKey.

Unset Elimination Schemes.
Inductive Resp : Type :=
  mkResp { Type_ : RespType; Raw : list byte; Multi : list Resp }.
Set Elimination Schemes.

Definition fakeKey : list byte := bytes "fakeKey".

Definition noKeyOps : list (list byte * list byte) :=
  [ (bytes "PING", fakeKey); (bytes "SLOTSNUM", fakeKey); (bytes "SLOTSCHECK", fakeKey) ].

Definition thridAsKeyTbl : list (list byte) :=
  [ bytes "ZINTERSTORE"; bytes "ZUNIONSTORE"; bytes "EVAL"; bytes "EVALSHA" ].

(** ** Integer codec *)

(** The body of [Btoi]'s loop, [k] iterations before the loop condition
    [i < uint8(len(b))] fails.  [i] starts at 0 and the bound is at most 255,
    so [i++] never wraps. *)
Fixpoint Btoi_loop (k : nat) (b : list byte) (i n sign : Z) : res Z :=
  match k with
  | O => Ok (wrap (sign * n))
  | S k' =>
      c <- index b i ;;
      if (i =? 0) && Byte.eqb c "-"%byte then
        if len b =? 1 then Err InvalidNumber
        else Btoi_loop k' b (i + 1) n (-1)
      else if (0 <=? code c) && (code c <=? code "9"%byte) then
        let n := if 0 <? i then wrap (n * 10) else n in
        let n := wrap (n + (code c - code "0"%byte)) in
        Btoi_loop k' b (i + 1) n sign
      else Err InvalidNumber
  end.

Definition Btoi (b : list byte) : res Z :=
  Btoi_loop (Z.to_nat (uint8 (len b))) b 0 0 1.

(** [strconv.Itoa] of the Go standard library: the decimal representation,
    with a leading minus sign for a negative number. *)
Definition strconv_Itoa (i : Z) : list byte :=
  bytes (NilZero.string_of_int (Z.to_int i)).

(** ** Line reader *)

(** [bufio.Reader.ReadBytes(delim)]: the bytes up to and including the first
    [delim]; io.EOF when the stream ends before one is found. *)
Fixpoint ReadBytes (r : list byte) (delim : byte) : res (list byte * list byte) :=
  match r with
  | [] => Err EOF
  | c :: r' =>
      if Byte.eqb c delim then Ok ([c], r')
      else '(line, rest) <- ReadBytes r' delim ;; Ok (c :: line, rest)
  end.

Definition readLine (r : list byte) : res (list byte * list byte) :=
  '(line, r) <- ReadBytes r LF ;;
  if len line <? 2 then Err InvalidPacket
  else
    c <- index line (len line - 2) ;;
    if negb (Byte.eqb c CR) then Err InvalidPacket
    else Ok (line, r).

(** ** Payload extraction *)

Definition raw2Bulk (r : Resp) : res (list byte) :=
  slice (Raw r) 1 (len (Raw r) - 2).

Definition raw2Error (r : Resp) : res (list byte) :=
  slice (Raw r) 1 (len (Raw r) - 2).

(** [bytes.IndexByte]: the index of the first [c] in [b], or -1. *)
Fixpoint IndexByte (b : list byte) (c : byte) : Z :=
  match b with
  | [] => -1
  | x :: b' =>
      if Byte.eqb x c then 0
      else let k := IndexByte b' c in if k <? 0 then -1 else k + 1
  end.

Definition Op (r : Resp) : res (list byte) :=
  if 0 <? len (Multi r) then
    m0 <- index (Multi r) 0 ;;
    op <- raw2Bulk m0 ;;
    let startPos := IndexByte op LF in
    if startPos <? 0 then Err InvalidResp
    else sliceFrom op (startPos + 1)
  else Err InvalidResp.

Definition funGetKeys : Type := Resp -> res (list (list byte)).

(** The [range] loop of [defaultGetKeys]. *)
Fixpoint defaultGetKeys_loop (vs : list Resp) (keys : list (list byte))
  : res (list (list byte)) :=
  match vs with
  | [] => Ok keys
  | v :: vs' =>
      key <- raw2Bulk v ;;
      let startPos := IndexByte key LF in
      if startPos <? 0 then Err InvalidResp
      else
        k <- sliceFrom key (startPos + 1) ;;
        defaultGetKeys_loop vs' (keys ++ [k])
  end.

Definition defaultGetKeys (r : Resp) : res (list (list byte)) :=
  args <- sliceFrom (Multi r) 1 ;;
  let count := len args in
  if count =? 0 then Ok []
  else defaultGetKeys_loop args [].

(** ** Decoder *)

Definition IsLetter (c : byte) : bool :=
  if (code "a"%byte <=? code c) && (code c <=? code "z"%byte) then true
  else if (code "A"%byte <=? code c) && (code c <=? code "Z"%byte) then true
  else false.

(** [io.ReadFull(r, buf)] for a buffer of [size] bytes. *)
Definition ReadFull (r : list byte) (size : nat) : res (list byte * list byte) :=
  if (size <=? length r)%nat then Ok (firstn size r, skipn size r)
  else match r with
       | [] => Err EOF
       | _ => Err ErrUnexpectedEOF
       end.

(** [ReadBulk(r, size, &raw)]: returns the reader and [*raw] as it leaves
    them when it returns nil. *)
Definition ReadBulk (r : list byte) (size : Z) (raw : list byte)
  : res (list byte * list byte) :=
  if size <? 0 then Ok (raw, r)
  else
    '(buf, r) <- ReadFull r (Z.to_nat size) ;;
    let raw := raw ++ buf in
    '(line, r) <- readLine r ;;
    let raw := raw ++ line in
    if negb (len line =? 2) then Err BadTerminator
    else Ok (raw, r).

(** [strings.Split(s, sep)] for a one-byte separator. *)
Fixpoint Split (s : list byte) (sep : byte) : list (list byte) :=
  match s with
  | [] => [[]]
  | c :: s' =>
      if Byte.eqb c sep then [] :: Split s' sep
      else match Split s' sep with
           | tok :: toks => (c :: tok) :: toks
           | [] => [[c]]
           end
  end.

(** White space as [strings.TrimSpace] sees it in ASCII text: tab, line feed,
    vertical tab, form feed, carriage return and space.  (Go also trims the
    UTF-8 encodings of the Unicode spaces above U+007F; a byte above 0x7f is
    taken here as not a space.) *)
Definition isSpace (c : byte) : bool :=
  ((9 <=? code c) && (code c <=? 13)) || (code c =? 32).

Fixpoint TrimLeft (s : list byte) : list byte :=
  match s with
  | c :: s' => if isSpace c then TrimLeft s' else s
  | [] => []
  end.

Definition TrimSpace (s : list byte) : list byte :=
  rev (TrimLeft (rev (TrimLeft s))).

(** Modelled from the spec: [respcoding.Marshal] of the external package
    github.com/ngaut/resp, applied to a string, is "the standard bulk-encoding
    routine": [$<length>\r\n<bytes>\r\n].  It does not fail on a string. *)
Definition Marshal (str : list byte) : res (list byte) :=
  Ok (bytes "$" ++ strconv_Itoa (len str) ++ NEW_LINE ++ str ++ NEW_LINE).

(** The loop over [strs] in the branch of [Parse] for a telnet command. *)
Fixpoint Parse_telnet_loop (strs : list (list byte)) (multi : list Resp)
  : res (list Resp) :=
  match strs with
  | [] => Ok multi
  | s :: strs' =>
      let str := TrimSpace s in
      if 0 <? len str then
        match Marshal str with
        | Ok b => Parse_telnet_loop strs' (multi ++ [mkResp BulkResp b []])
        | Err _ => Err ProtocolError
        | Panic => Panic
        | Timeout => Timeout
        end
      else Parse_telnet_loop strs' multi
  end.

(** The loop [for j := 0; j < i; j++] of [Parse], [k] iterations before
    [j] reaches [i]; [parse] is the recursive call. *)
Fixpoint Parse_multi (parse : list byte -> res (Resp * list byte))
  (k : nat) (r : list byte) : res (list Resp * list byte) :=
  match k with
  | O => Ok ([], r)
  | S k' =>
      '(rp, r) <- parse r ;;
      '(multi, r) <- Parse_multi parse k' r ;;
      Ok (rp :: multi, r)
  end.

(** [Parse] reads one value from [r].  Every call reads a line first, so a
    call on [r] needs no more than [S (length r)] nested calls: see
    [Parse_fuel]. *)
Fixpoint Parse (fuel : nat) (r : list byte) : res (Resp * list byte) :=
  match fuel with
  | O => Timeout
  | S fuel' =>
      '(line, r) <- readLine r ;;
      c <- index line 0 ;;
      if Byte.eqb c "-"%byte then Ok (mkResp ErrorResp line [], r)
      else if Byte.eqb c "+"%byte then Ok (mkResp SimpleString line [], r)
      else if Byte.eqb c ":"%byte then Ok (mkResp IntegerResp line [], r)
      else if Byte.eqb c "$"%byte then
        b <- slice line 1 (len line - 2) ;;
        size <- Btoi b ;;
        '(raw, r) <- ReadBulk r size line ;;
        Ok (mkResp BulkResp raw [], r)
      else if Byte.eqb c "*"%byte then
        b <- slice line 1 (len line - 2) ;;
        i <- Btoi b ;;
        if 0 <=? i then
          '(multi, r) <- Parse_multi (Parse fuel') (Z.to_nat i) r ;;
          Ok (mkResp MultiResp line multi, r)
        else Ok (mkResp MultiResp line [], r)
      else if negb (IsLetter c) then Err ProtocolError
      else
        let strs := Split line SP in
        let raw := bytes "*" ++ strconv_Itoa (len strs) ++ NEW_LINE in
        multi <- Parse_telnet_loop strs [] ;;
        Ok (mkResp MultiResp raw multi, r)
  end.

(** One message decoded from the start of [m], with the unread bytes. *)
Definition decode (m : list byte) : res (Resp * list byte) :=
  Parse (S (length m)) m.

(** ** Key extraction *)

(** The [range] loop of [thridAsKey], with its [break]. *)
Fixpoint thridAsKey_loop (vs : list Resp) (keys : list (list byte)) (numKeys : Z)
  : res (list (list byte)) :=
  match vs with
  | [] => Ok keys
  | v :: vs' =>
      k <- raw2Bulk v ;;
      let keys := keys ++ [k] in
      if len keys =? numKeys then Ok keys
      else thridAsKey_loop vs' keys numKeys
  end.

Definition thridAsKey (r : Resp) : res (list (list byte)) :=
  if len (Multi r) <? 4 then Ok [fakeKey]
  else
    m2 <- index (Multi r) 2 ;;
    b <- raw2Bulk m2 ;;
    numKeys <- Btoi b ;;
    vs <- sliceFrom (Multi r) 3 ;;
    thridAsKey_loop vs [] numKeys.

(** [keyFun] as [init] fills it: one entry per name of [thridAsKeyTbl]. *)
Definition keyFun : list (list byte * funGetKeys) :=
  map (fun v => (v, thridAsKey)) thridAsKeyTbl.

Definition bytes_eqb (a b : list byte) : bool :=
  if list_eq_dec Byte.byte_eq_dec a b then true else false.

(** A map lookup [m[key]]. *)
Fixpoint lookup {V : Type} (m : list (list byte * V)) (key : list byte) : option V :=
  match m with
  | [] => None
  | (k, v) :: m' => if bytes_eqb k key then Some v else lookup m' key
  end.

Definition Keys (r : Resp) : res (list (list byte)) :=
  key <- Op r ;;
  match lookup keyFun key with
  | None => defaultGetKeys r
  | Some f => f r
  end.

(** [Key]: every path of [Keys] that returns an error returns nil keys with
    it, so [len(keys) > 0] holds only together with a nil error. *)
Definition Key (r : Resp) : res (list byte) :=
  match Keys r with
  | Ok (k :: _) => Ok k
  | Ok [] => Ok fakeKey
  | Err _ => Ok fakeKey
  | Panic => Panic
  | Timeout => Timeout
  end.

(** ** Encoder *)

Fixpoint Bytes (r : Resp) : res (list byte) :=
  match r with
  | mkResp ty raw multi =>
      match ty with
      | NoKey => b <- raw2Bulk r ;; Ok (b ++ NEW_LINE)
      | SimpleString => Ok raw
      | ErrorResp => Ok raw
      | IntegerResp => Ok raw
      | BulkResp => Ok raw
      | MultiResp =>
          (fix loop (rs : list Resp) (buf : list byte) : res (list byte) :=
             match rs with
             | [] => Ok buf
             | resp :: rs' => slice <- Bytes resp ;; loop rs' (buf ++ slice)
             end) multi raw
      end
  end.

(** The loop of [Bytes] over the children of an Array node. *)
Definition Bytes_loop : list Resp -> list byte -> res (list byte) :=
  fix loop (rs : list Resp) (buf : list byte) : res (list byte) :=
    match rs with
    | [] => Ok buf
    | resp :: rs' => slice <- Bytes resp ;; loop rs' (buf ++ slice)
    end.

(** ** Messages without telnet commands *)

(** [framed_multi chk parse k r]: [chk] holds of the input of each of the
    [k] values that [Parse_multi parse k r] reads. *)
Fixpoint framed_multi (chk : list byte -> bool)
  (parse : list byte -> res (Resp * list byte)) (k : nat) (r : list byte) : bool :=
  match k with
  | O => true
  | S k' =>
      chk r &&
      match parse r with
      | Ok (_, r') => framed_multi chk parse k' r'
      | _ => true
      end
  end.

(** [framed_at fuel r]: no value that [Parse fuel r] reads (the message
    itself and, in an array, each of its elements in turn, at any depth)
    starts with an ASCII letter, that is, [Parse] never takes its branch for
    telnet commands. *)
Fixpoint framed_at (fuel : nat) (r : list byte) : bool :=
  match fuel with
  | O => true
  | S fuel' =>
      match readLine r with
      | Ok (line, r) =>
          match index line 0 with
          | Ok c =>
              if Byte.eqb c "*"%byte then
                match (b <- slice line 1 (len line - 2) ;; Btoi b) with
                | Ok i => framed_multi (framed_at fuel') (Parse fuel') (Z.to_nat i) r
                | _ => true
                end
              else negb (IsLetter c)
          | _ => true
          end
      | _ => true
      end
  end.

Definition framed (m : list byte) : bool := framed_at (S (length m)) m.

(** ** The payload of a Bulk node *)

(** The length a Bulk node declares: the text of its header line ([Raw] up
    to its first LF) between the type marker and the terminator, read by
    [Btoi]. *)
Definition bulkSize (c : Resp) : res Z :=
  b <- slice (Raw c) 1 (IndexByte (Raw c) LF - 1) ;; Btoi b.

(** The payload a Bulk node holds: as many bytes as its header declares,
    taken right after the header line. *)
Definition bulkPayload (c : Resp) : list byte :=
  match bulkSize c with
  | Ok n => firstn (Z.to_nat n) (skipn (Z.to_nat (IndexByte (Raw c) LF + 1)) (Raw c))
  | _ => []
  end.

(** A Bulk node that is not the null bulk. *)
Definition isBulkString (c : Resp) : bool :=
  match Type_ c, bulkSize c with
  | BulkResp, Ok n => 0 <=? n
  | _, _ => false
  end.

(** ** Notions used in the statements *)

(** A result other than [Timeout]. *)
Definition returns {A : Type} (x : res A) : Prop := x <> Timeout.

(** The count an Array node declares: its header line between the type
    marker and the terminator, read by [Btoi]. *)
Definition declaredCount (r : Resp) : res Z :=
  b <- slice (Raw r) 1 (len (Raw r) - 2) ;; Btoi b.

(** The branches of [Parse] that return a value, after it has read the line
    [line] with first byte [c] and left [r1] in the reader. *)
Inductive Parse_branch (fuel : nat) (line r1 : list byte) (c : byte)
  (r : Resp) (rest : list byte) : Prop :=
| branch_error :
    c = "-"%byte -> r = mkResp ErrorResp line [] -> rest = r1 ->
    Parse_branch fuel line r1 c r rest
| branch_simple :
    c = "+"%byte -> r = mkResp SimpleString line [] -> rest = r1 ->
    Parse_branch fuel line r1 c r rest
| branch_integer :
    c = ":"%byte -> r = mkResp IntegerResp line [] -> rest = r1 ->
    Parse_branch fuel line r1 c r rest
| branch_bulk (b : list byte) (size : Z) (raw : list byte) :
    c = "$"%byte ->
    slice line 1 (len line - 2) = Ok b -> Btoi b = Ok size ->
    ReadBulk r1 size line = Ok (raw, rest) ->
    r = mkResp BulkResp raw [] ->
    Parse_branch fuel line r1 c r rest
| branch_multi (b : list byte) (i : Z) (multi : list Resp) :
    c = "*"%byte ->
    slice line 1 (len line - 2) = Ok b -> Btoi b = Ok i -> 0 <= i ->
    Parse_multi (Parse fuel) (Z.to_nat i) r1 = Ok (multi, rest) ->
    r = mkResp MultiResp line multi ->
    Parse_branch fuel line r1 c r rest
| branch_null_multi (b : list byte) (i : Z) :
    c = "*"%byte ->
    slice line 1 (len line - 2) = Ok b -> Btoi b = Ok i -> i < 0 ->
    r = mkResp MultiResp line [] -> rest = r1 ->
    Parse_branch fuel line r1 c r rest
| branch_telnet (multi : list Resp) :
    c <> "*"%byte -> IsLetter c = true ->
    Parse_telnet_loop (Split line SP) [] = Ok multi ->
    r = mkResp MultiResp
          (bytes "*" ++ strconv_Itoa (len (Split line SP)) ++ NEW_LINE) multi ->
    rest = r1 ->
    Parse_branch fuel line r1 c r rest.

(** A Bulk node as [Parse] builds it from the header line [$<pre>\r\n] that
    declares [size] bytes, the bytes [buf] and the terminator. *)
Definition BulkOf (pre : list byte) (size : Z) (buf : list byte) (c : Resp) : Prop :=
  ~ In LF pre /\ Btoi pre = Ok size /\ 0 <= size /\ length buf = Z.to_nat size /\
  Raw c = ["$"%byte] ++ (pre ++ NEW_LINE ++ buf) ++ NEW_LINE.

(** ** Wire text of the examples *)

(** The lines [ls], each followed by CR LF. *)
Definition wire (ls : list string) : list byte :=
  concat (map (fun l => bytes l ++ NEW_LINE) ls).

(** ** Integer codec: the encoding side *)

(** [intBuffer] as [init] fills it: the decimal text of 0 .. 9999. *)
Definition intBuffer : list (list byte) :=
  map (fun i => strconv_Itoa (Z.of_nat i)) (seq 0 (Z.to_nat 10000)).

Definition Itoa (i : Z) : res (list byte) :=
  if i <? 0 then Ok (strconv_Itoa i)
  else if i <? len intBuffer then index intBuffer i
  else Ok (strconv_Itoa i).

(** ** Decimal value of a byte string *)

(** Reading the bytes [l] as decimal digits, most significant first, after
    the value [n]: a byte [c] counts as [c - '0'], also below ['0']. *)
Definition horner (n : Z) (l : list byte) : Z :=
  fold_left (fun n c => n * 10 + (code c - code "0"%byte)) l n.

Definition decimal (b : list byte) : Z := horner 0 b.

(** The same with the wrap-around of [int] after each operation, as the loop
    of [Btoi] computes it. *)
Definition hornerW (n : Z) (l : list byte) : Z :=
  fold_left (fun n c => wrap (wrap (n * 10) + (code c - code "0"%byte))) l n.

(** The value of the decimal number [d] after the value [acc]. *)
Fixpoint uint_val (d : Decimal.uint) (acc : Z) : Z :=
  match d with
  | Decimal.Nil => acc
  | Decimal.D0 d => uint_val d (acc * 10)
  | Decimal.D1 d => uint_val d (acc * 10 + 1)
  | Decimal.D2 d => uint_val d (acc * 10 + 2)
  | Decimal.D3 d => uint_val d (acc * 10 + 3)
  | Decimal.D4 d => uint_val d (acc * 10 + 4)
  | Decimal.D5 d => uint_val d (acc * 10 + 5)
  | Decimal.D6 d => uint_val d (acc * 10 + 6)
  | Decimal.D7 d => uint_val d (acc * 10 + 7)
  | Decimal.D8 d => uint_val d (acc * 10 + 8)
  | Decimal.D9 d => uint_val d (acc * 10 + 9)
  end.

(** An ASCII digit. *)
Definition isDigit (c : byte) : Prop := code "0"%byte <= code c <= code "9"%byte.

(** What makes [Btoi] fail: the input is a lone minus sign, or one of the
    bytes the loop visits is above ['9']. *)
Definition rejected (b : list byte) : Prop :=
  b = ["-"%byte] \/
  exists j c, 0 <= j < uint8 (len b) /\ index b j = Ok c /\ code "9"%byte < code c.

(** ** Outcomes and shapes used in the statements *)

(** A call that answers: it returns a value or one of the two errors that the
    accessors produce themselves; it does not panic. *)
Definition answers {A : Type} (x : res A) : Prop :=
  (exists a, x = Ok a) \/ x = Err InvalidResp \/ x = Err InvalidNumber.

(** The number of children the loop of [thridAsKey] takes when it starts
    with [have] keys and [avail] children: it stops at the child that makes
    the number of keys equal to [numKeys], if there is one. *)
Definition taken (have numKeys avail : Z) : Z :=
  if (have <? numKeys) && (numKeys <=? have + avail) then numKeys - have else avail.

(** The words of a telnet line: its pieces between spaces, trimmed, without
    the empty ones. *)
Definition words (line : list byte) : list (list byte) :=
  filter (fun s => 0 <? len s) (map TrimSpace (Split line SP)).

(** The Bulk node that the telnet branch of [Parse] builds for a word. *)
Definition bulkNode (str : list byte) : Resp :=
  mkResp BulkResp (bytes "$" ++ strconv_Itoa (len str) ++ NEW_LINE ++ str ++ NEW_LINE) [].

(** * Properties *)

(** ** Results *)

Lemma bind_Ok {A B : Type} (x : res A) (k : A -> res B) (b : B) :
  bind x k = Ok b -> exists a, x = Ok a /\ k a = Ok b.
Proof. destruct x; simpl; try discriminate. intros H. eauto. Qed.

Ltac bind_inv H :=
  let a := fresh "a" in
  let Ha := fresh "Hbind" in
  apply bind_Ok in H; destruct H as [a [Ha H]].

(** Examples: the value that [decode] returns for a given message is found
    by computation. *)
Ltac exists_decoded :=
  lazymatch goal with
  | |- exists r, decode ?m = Ok (r, _) /\ _ =>
      let v := eval vm_compute in (decode m) in
      lazymatch v with
      | Ok (?r0, _) => exists r0
      end
  end.

(** Linear arithmetic over the lengths of concatenations. *)
Ltac len_lia :=
  unfold len in *; repeat rewrite ?length_app, ?length_cons in *;
  simpl length in *; lia.

(** ** Integer codec *)

Lemma uint8_range (z : Z) : 0 <= uint8 z < 256.
Proof. unfold uint8. apply Z.mod_pos_bound. lia. Qed.

Lemma index_nth_error {A : Type} (b : list A) (j : nat) :
  index b (Z.of_nat j) = match nth_error b j with Some x => Ok x | None => Panic end.
Proof.
  unfold index. destruct (Z.of_nat j <? 0) eqn:E.
  - apply Z.ltb_lt in E. lia.
  - now rewrite Nat2Z.id.
Qed.

(** The loop reads [b] only at the indices it visits, and its length. *)
Lemma Btoi_loop_ext (k : nat) : forall (b1 b2 : list byte) (i n sign : Z),
  len b1 = len b2 ->
  (forall j, i <= j < i + Z.of_nat k -> index b1 j = index b2 j) ->
  Btoi_loop k b1 i n sign = Btoi_loop k b2 i n sign.
Proof.
  induction k as [|k IH]; intros b1 b2 i n sign Hlen Hidx; [reflexivity|].
  cbn [Btoi_loop].
  rewrite <- (Hidx i) by lia. rewrite <- Hlen.
  destruct (index b1 i) as [c| | |]; cbn [bind]; try reflexivity.
  assert (Hnext : forall n' s', Btoi_loop k b1 (i + 1) n' s' = Btoi_loop k b2 (i + 1) n' s').
  { intros n' s'. apply IH; [assumption|]. intros j Hj. apply Hidx. lia. }
  rewrite !Hnext. reflexivity.
Qed.

Lemma firstn_index {A : Type} (p : nat) (b1 b2 : list A) (j : Z) :
  firstn p b1 = firstn p b2 -> 0 <= j < Z.of_nat p -> index b1 j = index b2 j.
Proof.
  intros Hf Hj. rewrite <- (Z2Nat.id j) by lia. rewrite !index_nth_error.
  assert (Hlt : Nat.ltb (Z.to_nat j) p = true) by (apply Nat.ltb_lt; lia).
  pose proof (nth_error_firstn p b1 (Z.to_nat j)) as H1.
  pose proof (nth_error_firstn p b2 (Z.to_nat j)) as H2.
  rewrite Hlt in H1, H2. rewrite <- H1, <- H2, Hf. reflexivity.
Qed.

Lemma uint8_len {A : Type} (b : list A) :
  Z.to_nat (uint8 (len b)) = (length b mod 256)%nat.
Proof.
  unfold uint8, len.
  change 256 with (Z.of_nat 256). rewrite <- Nat2Z.inj_mod. apply Nat2Z.id.
Qed.

(** A byte above ['9'] among the bytes the loop visits makes it fail. *)
Lemma Btoi_loop_rejects (k : nat) : forall (b : list byte) (i n sign : Z) (j : Z) (c : byte),
  0 <= i -> i + Z.of_nat k <= len b ->
  i <= j < i + Z.of_nat k -> index b j = Ok c -> code "9"%byte < code c ->
  Btoi_loop k b i n sign = Err InvalidNumber.
Proof.
  induction k as [|k IH]; intros b i n sign j c Hi Hk Hj Hc H9; [lia|].
  cbn [Btoi_loop].
  destruct (index b i) as [ci| | |] eqn:Hci; cbn [bind].
  - destruct (Z.eq_dec j i) as [->|Hne].
    + rewrite Hc in Hci. injection Hci as <-.
      assert (Hm : Byte.eqb c "-"%byte = false).
      { destruct (Byte.eqb c "-"%byte) eqn:E; [|reflexivity].
        apply Byte.byte_dec_bl in E. subst c. vm_compute in H9. discriminate. }
      rewrite Hm, andb_false_r.
      assert (Hd : (code c <=? code "9"%byte) = false) by (apply Z.leb_gt; assumption).
      rewrite Hd, andb_false_r. reflexivity.
    + assert (Hrec : forall n' s', Btoi_loop k b (i + 1) n' s' = Err InvalidNumber).
      { intros n' s'. apply (IH b (i + 1) n' s' j c); try assumption; lia. }
      rewrite !Hrec.
      destruct ((i =? 0) && Byte.eqb ci "-"%byte); [destruct (len b =? 1); reflexivity|].
      destruct ((0 <=? code ci) && (code ci <=? code "9"%byte)); reflexivity.
  - unfold index in Hci. destruct (i <? 0); discriminate || destruct (nth_error _ _); discriminate.
  - exfalso. unfold index in Hci. destruct (i <? 0) eqn:E; [apply Z.ltb_lt in E; lia|].
    destruct (nth_error b (Z.to_nat i)) eqn:En; [discriminate|].
    apply nth_error_None in En. unfold len in Hk. lia.
  - unfold index in Hci. destruct (i <? 0); discriminate || destruct (nth_error _ _); discriminate.
Qed.

(** What [Btoi] does reject: an input with a byte above ['9'] at an index
    below [uint8(len(b))]. *)
Lemma Btoi_rejects_above_9 (b : list byte) (j : Z) (c : byte) :
  0 <= j < uint8 (len b) -> index b j = Ok c -> code "9"%byte < code c ->
  Btoi b = Err InvalidNumber.
Proof.
  intros Hj Hc H9. unfold Btoi.
  pose proof (uint8_range (len b)) as Hr.
  assert (Hle : uint8 (len b) <= len b).
  { unfold uint8. apply Z.mod_le; unfold len; lia. }
  apply (Btoi_loop_rejects _ b 0 0 1 j c); try assumption; lia.
Qed.

(** C3.  [Btoi] does not fail on every non-digit byte: its digit test reads
    [b[i] >= 0 && b[i] <= '9'], so a byte below ['0'] counts as a digit of
    negative value.  On ["5/"] it returns 49 with no error; the three results
    the specification lists ([-5] for ["-5"], failure for ["5a"] and for
    ["-"]) are as stated. *)
Theorem Btoi_accepts_byte_below_0 :
  Btoi (bytes "5/") = Ok 49 /\
  Btoi (bytes " ") = Ok (-16) /\
  Btoi (bytes "-5") = Ok (-5) /\
  Btoi (bytes "5a") = Err InvalidNumber /\
  Btoi (bytes "-") = Err InvalidNumber.
Proof. repeat apply conj; vm_compute; reflexivity. Qed.

(** C9.  The loop index of [Btoi] is a [uint8] bounded by [uint8(len(b))]:
    an input whose length is a positive multiple of 256 yields 0 with no
    error, and two inputs of one length that agree on their first
    [len(b) mod 256] bytes yield the same result, whatever follows. *)
Theorem Btoi_uint8_index :
  (forall b : list byte,
      (0 < length b)%nat -> (length b mod 256 = 0)%nat -> Btoi b = Ok 0) /\
  (forall b1 b2 : list byte,
      length b1 = length b2 ->
      firstn (length b1 mod 256) b1 = firstn (length b1 mod 256) b2 ->
      Btoi b1 = Btoi b2).
Proof.
  split.
  - intros b _ Hmod. unfold Btoi. rewrite uint8_len, Hmod. reflexivity.
  - intros b1 b2 Hlen Hpre. unfold Btoi.
    assert (Hl : len b1 = len b2) by (unfold len; now rewrite Hlen).
    rewrite <- Hl. apply Btoi_loop_ext; [assumption|].
    intros j Hj. apply (firstn_index (length b1 mod 256)); [assumption|].
    rewrite <- uint8_len. rewrite Z2Nat.id by (pose proof (uint8_range (len b1)); lia).
    rewrite Z2Nat.id in Hj by (pose proof (uint8_range (len b1)); lia). lia.
Qed.

Lemma Btoi_uint8_index_witness :
  Btoi (repeat "9"%byte 256) = Ok 0 /\
  Btoi (bytes "7" ++ repeat "9"%byte 256) = Btoi (bytes "7" ++ repeat "x"%byte 256).
Proof.
  split.
  - apply (proj1 Btoi_uint8_index); [vm_compute; lia | reflexivity].
  - apply (proj2 Btoi_uint8_index); reflexivity.
Defined.

(** C10.  [Btoi] of the empty slice is 0 with no error, so a header whose
    length field is empty declares length 0: after [$\r\n] the decoder reads
    a bulk of no bytes (it wants the terminator next), and [*\r\n] is an array
    of no children. *)
Theorem Btoi_empty_is_zero :
  Btoi [] = Ok 0 /\
  (forall rest : list byte,
      decode (wire ["$"] ++ rest) =
      ('(raw, r) <- ReadBulk rest 0 (wire ["$"]) ;; Ok (mkResp BulkResp raw [], r))) /\
  (forall rest : list byte,
      decode (wire ["$"; ""] ++ rest) = Ok (mkResp BulkResp (wire ["$"; ""]) [], rest)) /\
  (forall rest : list byte,
      decode (wire ["*"] ++ rest) = Ok (mkResp MultiResp (wire ["*"]) [], rest)).
Proof.
  repeat apply conj; intros; reflexivity.
Qed.

(** ** Line reader *)

Lemma ReadBytes_inv (delim : byte) : forall (r line rest : list byte),
  ReadBytes r delim = Ok (line, rest) ->
  exists pre, line = pre ++ [delim] /\ ~ In delim pre /\ r = line ++ rest.
Proof.
  induction r as [|c r IH]; intros line rest H; simpl in H; [discriminate|].
  destruct (Byte.eqb c delim) eqn:E.
  - apply Byte.byte_dec_bl in E. subst c. injection H as <- <-.
    exists []. repeat apply conj; try reflexivity. intros [].
  - bind_inv H. destruct a as [line' rest']. injection H as <- <-.
    destruct (IH _ _ Hbind) as (pre & -> & Hpre & ->).
    exists (c :: pre). repeat apply conj; try reflexivity.
    intros [->|Hin]; [|contradiction].
    rewrite (Byte.byte_dec_lb eq_refl) in E. discriminate.
Qed.

Lemma len_app {A : Type} (a b : list A) : len (a ++ b) = len a + len b.
Proof. unfold len. rewrite length_app. lia. Qed.

Lemma len_nonneg {A : Type} (a : list A) : 0 <= len a.
Proof. unfold len. lia. Qed.

Lemma index_app_r {A : Type} (a b : list A) (j : Z) :
  0 <= j -> index (a ++ b) (len a + j) = index b j.
Proof.
  intros Hj. unfold index, len.
  destruct (Z.of_nat (length a) + j <? 0) eqn:E1; [apply Z.ltb_lt in E1; lia|].
  destruct (j <? 0) eqn:E2; [apply Z.ltb_lt in E2; lia|].
  rewrite nth_error_app2 by lia.
  replace (Z.to_nat (Z.of_nat (length a) + j) - length a)%nat with (Z.to_nat j) by lia.
  reflexivity.
Qed.

(** A line that [readLine] returns is a prefix of the input, ends with CR LF
    and holds no other LF. *)
Lemma readLine_inv (r line rest : list byte) :
  readLine r = Ok (line, rest) ->
  exists pre, line = pre ++ [CR; LF] /\ ~ In LF pre /\ r = line ++ rest.
Proof.
  unfold readLine. intros H. bind_inv H. destruct a as [line' rest'].
  destruct (len line' <? 2) eqn:E2; [discriminate|]. apply Z.ltb_ge in E2.
  bind_inv H. destruct (negb (Byte.eqb a CR)) eqn:Ec; [discriminate|].
  injection H as <- <-.
  apply negb_false_iff, Byte.byte_dec_bl in Ec. subst a.
  destruct (ReadBytes_inv _ _ _ _ Hbind) as (pre & -> & Hpre & ->).
  destruct (rev pre) as [|x pre'] eqn:Er.
  - apply (f_equal (@rev byte)) in Er. rewrite rev_involutive in Er. subst pre.
    unfold len in E2. simpl in E2. lia.
  - apply (f_equal (@rev byte)) in Er. rewrite rev_involutive in Er. simpl in Er. subst pre.
    rewrite <- app_assoc in Hbind0. simpl in Hbind0.
    replace (len (rev pre' ++ [x; LF]) - 2) with (len (rev pre') + 0) in Hbind0
      by (rewrite len_app; unfold len; simpl; lia).
    rewrite index_app_r in Hbind0 by lia. injection Hbind0 as ->.
    exists (rev pre'). rewrite <- !app_assoc. simpl. repeat apply conj; try reflexivity.
    intros Hin. apply Hpre. apply in_or_app. now left.
Qed.

(** The first byte of the line is the first byte of the input. *)
Lemma readLine_first (m line r1 : list byte) (c : byte) :
  readLine m = Ok (line, r1) -> index line 0 = Ok c -> index m 0 = Ok c.
Proof.
  intros Hline Hc. destruct (readLine_inv _ _ _ Hline) as (pre & -> & _ & ->).
  destruct pre; unfold index in *; simpl in *; exact Hc.
Qed.

(** ** Decoder: case analysis *)

Lemma ReadFull_inv (r : list byte) (size : nat) (buf rest : list byte) :
  ReadFull r size = Ok (buf, rest) -> r = buf ++ rest /\ length buf = size.
Proof.
  unfold ReadFull. destruct (size <=? length r)%nat eqn:E.
  - apply Nat.leb_le in E. intros H. injection H as <- <-. split.
    + symmetry. apply firstn_skipn.
    + rewrite length_firstn. lia.
  - destruct r; discriminate.
Qed.

(** [ReadBulk] leaves [raw] alone for a negative size; otherwise it appends
    [size] bytes and the terminator, which it takes from the reader. *)
Lemma ReadBulk_inv (r : list byte) (size : Z) (raw0 raw rest : list byte) :
  ReadBulk r size raw0 = Ok (raw, rest) ->
  (size < 0 /\ raw = raw0 /\ rest = r) \/
  (0 <= size /\ exists buf, length buf = Z.to_nat size /\
                            raw = raw0 ++ buf ++ NEW_LINE /\
                            r = buf ++ NEW_LINE ++ rest).
Proof.
  unfold ReadBulk. destruct (size <? 0) eqn:E.
  - apply Z.ltb_lt in E. intros H. injection H as <- <-. left. auto.
  - apply Z.ltb_ge in E. intros H. right. split; [assumption|].
    bind_inv H. destruct a as [buf r1]. bind_inv H. destruct a as [line r2].
    destruct (negb (len line =? 2)) eqn:E2; [discriminate|].
    apply negb_false_iff, Z.eqb_eq in E2. injection H as <- <-.
    destruct (ReadFull_inv _ _ _ _ Hbind) as [-> Hlen].
    destruct (readLine_inv _ _ _ Hbind0) as (pre & -> & _ & ->).
    assert (pre = []) as ->.
    { destruct pre; [reflexivity|]. rewrite len_app in E2. unfold len in E2.
      simpl in E2. lia. }
    exists buf. simpl. rewrite <- app_assoc. auto.
Qed.

Lemma Parse_inv (fuel : nat) (m : list byte) (r : Resp) (rest : list byte) :
  Parse (S fuel) m = Ok (r, rest) ->
  exists line r1 c,
    readLine m = Ok (line, r1) /\ index line 0 = Ok c /\
    Parse_branch fuel line r1 c r rest.
Proof.
  cbn [Parse]. intros H. bind_inv H. destruct a as [line r1]. bind_inv H.
  rename a into c. exists line, r1, c. split; [assumption|]. split; [assumption|].
  destruct (Byte.eqb c "-"%byte) eqn:E1.
  { apply Byte.byte_dec_bl in E1. injection H as <- <-. now apply branch_error. }
  destruct (Byte.eqb c "+"%byte) eqn:E2.
  { apply Byte.byte_dec_bl in E2. injection H as <- <-. now apply branch_simple. }
  destruct (Byte.eqb c ":"%byte) eqn:E3.
  { apply Byte.byte_dec_bl in E3. injection H as <- <-. now apply branch_integer. }
  destruct (Byte.eqb c "$"%byte) eqn:E4.
  { apply Byte.byte_dec_bl in E4. bind_inv H. bind_inv H. bind_inv H.
    destruct a1 as [raw r2]. injection H as <- <-.
    eapply branch_bulk; eauto. }
  destruct (Byte.eqb c "*"%byte) eqn:E5.
  { apply Byte.byte_dec_bl in E5. bind_inv H. bind_inv H.
    destruct (0 <=? a0) eqn:Ei.
    - apply Z.leb_le in Ei. bind_inv H. destruct a1 as [multi r2].
      injection H as <- <-. eapply branch_multi; eauto.
    - apply Z.leb_gt in Ei. injection H as <- <-.
      eapply branch_null_multi; eauto. }
  destruct (negb (IsLetter c)) eqn:E6; [discriminate|].
  apply negb_false_iff in E6. bind_inv H. injection H as <- <-.
  apply (branch_telnet fuel line r1 c _ _ a); auto.
  intros ->. discriminate.
Qed.

(** ** Encoder after decoder *)

Lemma Bytes_multi (raw : list byte) (multi : list Resp) :
  Bytes (mkResp MultiResp raw multi) = Bytes_loop multi raw.
Proof. reflexivity. Qed.

Section RoundTripLoop.

Variable parse : list byte -> res (Resp * list byte).
Variable chk : list byte -> bool.

Hypothesis parse_roundtrip :
  forall (m : list byte) (r : Resp) (rest : list byte),
    parse m = Ok (r, rest) -> chk m = true ->
    exists bs, Bytes r = Ok bs /\ m = bs ++ rest.

Lemma Parse_multi_roundtrip (k : nat) :
  forall (r1 : list byte) (multi : list Resp) (rest buf : list byte),
    Parse_multi parse k r1 = Ok (multi, rest) ->
    framed_multi chk parse k r1 = true ->
    exists bs, Bytes_loop multi buf = Ok (buf ++ bs) /\ r1 = bs ++ rest.
Proof.
  induction k as [|k IH]; intros r1 multi rest buf H Hf; simpl in H.
  - injection H as <- <-. exists []. simpl. rewrite app_nil_r. auto.
  - bind_inv H. destruct a as [rp r2]. bind_inv H. destruct a as [multi' r3].
    injection H as <- <-. simpl in Hf. apply andb_true_iff in Hf as [Hc Hf].
    rewrite Hbind in Hf.
    destruct (parse_roundtrip _ _ _ Hbind Hc) as (bs1 & Hb1 & ->).
    destruct (IH _ _ _ (buf ++ bs1) Hbind0 Hf) as (bs2 & Hb2 & ->).
    exists (bs1 ++ bs2). simpl. rewrite Hb1. cbn [bind]. rewrite Hb2.
    rewrite !app_assoc. auto.
Qed.

End RoundTripLoop.

Lemma Parse_roundtrip (fuel : nat) :
  forall (m : list byte) (r : Resp) (rest : list byte),
    Parse fuel m = Ok (r, rest) -> framed_at fuel m = true ->
    exists bs, Bytes r = Ok bs /\ m = bs ++ rest.
Proof.
  induction fuel as [|fuel IH]; intros m r rest H Hf; [discriminate|].
  destruct (Parse_inv _ _ _ _ H) as (line & r1 & c & Hline & Hc & Hbr).
  cbn [framed_at] in Hf. rewrite Hline, Hc in Hf.
  destruct (readLine_inv _ _ _ Hline) as (pre & Hpre & _ & ->).
  destruct Hbr as [-> -> -> | -> -> -> | -> -> -> | b size raw -> Hb Hsz Hrb ->
                  | b i multi -> Hb Hi Hpos Hm -> | b i -> Hb Hi Hneg -> ->
                  | multi Hstar Hlet _ _ _].
  - exists line. auto.
  - exists line. auto.
  - exists line. auto.
  - exists raw. split; [reflexivity|].
    destruct (ReadBulk_inv _ _ _ _ _ Hrb) as [(_ & -> & ->) | (_ & buf & _ & -> & ->)].
    + reflexivity.
    + rewrite <- !app_assoc. reflexivity.
  - change (Byte.eqb "*"%byte "*"%byte) with true in Hf. cbv iota in Hf.
    rewrite Hb in Hf. cbn [bind] in Hf. rewrite Hi in Hf.
    destruct (Parse_multi_roundtrip (Parse fuel) (framed_at fuel) IH _ _ _ _ line Hm Hf)
      as (bs & Hbs & ->).
    exists (line ++ bs). rewrite Bytes_multi, Hbs, <- app_assoc. auto.
  - exists line. auto.
  - exfalso. destruct (Byte.eqb c "*"%byte) eqn:E.
    + apply Byte.byte_dec_bl in E. contradiction.
    + rewrite Hlet in Hf. discriminate.
Qed.

(** C1 as stated fails: the telnet command [PING] is accepted, and what
    [Bytes] returns for it is its multi-bulk form, not the input. *)
Lemma roundtrip_fails_on_telnet :
  ~ (forall (m : list byte) (r : Resp),
        decode m = Ok (r, []) -> Bytes r = Ok m).
Proof.
  intros H.
  specialize (H (wire ["PING"])
                (mkResp MultiResp (wire ["*1"]) [mkResp BulkResp (wire ["$4"; "PING"]) []])
                eq_refl).
  vm_compute in H. discriminate.
Qed.

(** C1, amended.  For every byte sequence that [Parse] accepts without taking
    its branch for telnet commands at any depth (no value in it starts with an
    ASCII letter), [Bytes] of the decoded value is, byte for byte, what
    [Parse] has read: the whole input when nothing is left unread. *)
Theorem Bytes_Parse_roundtrip (m : list byte) (r : Resp) (rest : list byte) :
  decode m = Ok (r, rest) -> framed m = true ->
  exists bs, Bytes r = Ok bs /\ m = bs ++ rest.
Proof. apply Parse_roundtrip. Qed.

Lemma Bytes_Parse_roundtrip_witness :
  let m := wire ["*3"; "$3"; "SET"; "$3"; "foo"; "*2"; ":1"; "$-1"] in
  exists r, decode m = Ok (r, []) /\ exists bs, Bytes r = Ok bs /\ m = bs ++ [].
Proof.
  intros m. exists_decoded. split; [vm_compute; reflexivity|].
  eapply Bytes_Parse_roundtrip; vm_compute; reflexivity.
Defined.

(** ** The fuel of [Parse] *)

Lemma returns_bind {A B : Type} (x : res A) (k : A -> res B) :
  returns x -> (forall a, x = Ok a -> returns (k a)) -> returns (bind x k).
Proof.
  unfold returns. destruct x; simpl; intros Hx Hk; try congruence. now apply Hk.
Qed.

Lemma returns_index {A : Type} (b : list A) (i : Z) : returns (index b i).
Proof.
  unfold returns, index. destruct (i <? 0); [discriminate|].
  destruct (nth_error b (Z.to_nat i)); discriminate.
Qed.

Lemma returns_slice {A : Type} (b : list A) (lo hi : Z) : returns (slice b lo hi).
Proof. unfold returns, slice. destruct (_ && _); discriminate. Qed.

Lemma returns_Btoi_loop (k : nat) : forall (b : list byte) (i n sign : Z),
  returns (Btoi_loop k b i n sign).
Proof.
  induction k as [|k IH]; intros b i n sign; cbn [Btoi_loop]; [discriminate|].
  apply returns_bind; [apply returns_index|]. intros c _.
  destruct (_ && _); [destruct (len b =? 1); [discriminate|apply IH]|].
  destruct (_ && _); [apply IH|discriminate].
Qed.

Lemma returns_Btoi (b : list byte) : returns (Btoi b).
Proof. apply returns_Btoi_loop. Qed.

Lemma returns_ReadBytes (delim : byte) (r : list byte) : returns (ReadBytes r delim).
Proof.
  induction r as [|c r IH]; simpl; [discriminate|].
  destruct (Byte.eqb c delim); [discriminate|].
  apply returns_bind; [assumption|]. intros [line rest] _. discriminate.
Qed.

Lemma returns_readLine (r : list byte) : returns (readLine r).
Proof.
  unfold readLine. apply returns_bind; [apply returns_ReadBytes|].
  intros [line rest] _. destruct (len line <? 2); [discriminate|].
  apply returns_bind; [apply returns_index|]. intros c _.
  destruct (negb _); discriminate.
Qed.

Lemma returns_ReadBulk (r : list byte) (size : Z) (raw : list byte) :
  returns (ReadBulk r size raw).
Proof.
  unfold ReadBulk. destruct (size <? 0); [discriminate|].
  apply returns_bind.
  - unfold returns, ReadFull. destruct (_ <=? _)%nat; [discriminate|].
    destruct r; discriminate.
  - intros [buf r1] _. apply returns_bind; [apply returns_readLine|].
    intros [line r2] _. destruct (negb _); discriminate.
Qed.

Lemma returns_Parse_telnet_loop (strs : list (list byte)) :
  forall multi, returns (Parse_telnet_loop strs multi).
Proof.
  induction strs as [|s strs IH]; intros multi; simpl; [discriminate|].
  destruct (0 <? len (TrimSpace s)); apply IH.
Qed.

(** What [Parse] leaves unread is shorter than what it was given. *)
Lemma Parse_multi_consumes (parse : list byte -> res (Resp * list byte)) (n : nat) :
  (forall m r rest, (length m <= n)%nat -> parse m = Ok (r, rest) ->
                    (length rest < length m)%nat) ->
  forall (k : nat) (r1 : list byte) (multi : list Resp) (rest : list byte),
    (length r1 <= n)%nat ->
    Parse_multi parse k r1 = Ok (multi, rest) -> (length rest <= length r1)%nat.
Proof.
  intros Hp. induction k as [|k IH]; intros r1 multi rest Hn H; simpl in H.
  - injection H as <- <-. lia.
  - bind_inv H. destruct a as [rp r2]. bind_inv H. destruct a as [multi' r3].
    injection H as <- <-. pose proof (Hp _ _ _ Hn Hbind).
    assert ((length r2 <= n)%nat) by lia.
    pose proof (IH _ _ _ H0 Hbind0). lia.
Qed.

Lemma Parse_consumes (fuel : nat) :
  forall (m : list byte) (r : Resp) (rest : list byte),
    Parse fuel m = Ok (r, rest) -> (length rest < length m)%nat.
Proof.
  induction fuel as [|fuel IH]; intros m r rest H; [discriminate|].
  destruct (Parse_inv _ _ _ _ H) as (line & r1 & c & Hline & Hc & Hbr).
  destruct (readLine_inv _ _ _ Hline) as (pre & -> & _ & ->).
  rewrite !length_app. simpl.
  destruct Hbr as [_ _ -> | _ _ -> | _ _ -> | b size raw _ _ _ Hrb _
                  | b i multi _ _ _ _ Hm _ | b i _ _ _ _ _ -> | multi _ _ _ _ ->];
    try lia.
  - destruct (ReadBulk_inv _ _ _ _ _ Hrb) as [(_ & _ & ->) | (_ & buf & _ & _ & ->)];
      [lia|]. rewrite !length_app. lia.
  - assert ((length rest <= length r1)%nat); [|lia].
    apply (Parse_multi_consumes (Parse fuel) (length r1)) with (k := Z.to_nat i) (multi := multi);
      [|lia|assumption].
    intros m r' rest' _ Hp. apply (IH _ _ _ Hp).
Qed.

Lemma returns_Parse_multi (parse : list byte -> res (Resp * list byte)) (n : nat) :
  (forall m, (length m <= n)%nat -> returns (parse m)) ->
  (forall m r rest, parse m = Ok (r, rest) -> (length rest < length m)%nat) ->
  forall (k : nat) (r1 : list byte),
    (length r1 <= n)%nat -> returns (Parse_multi parse k r1).
Proof.
  intros Hret Hcons. induction k as [|k IH]; intros r1 Hn; simpl; [discriminate|].
  apply returns_bind; [now apply Hret|]. intros [rp r2] Hp.
  apply returns_bind.
  - apply IH. pose proof (Hcons _ _ _ Hp). lia.
  - intros [multi r3] _. discriminate.
Qed.

(** [Parse] does not run out of fuel when it is given more than the length
    of its input. *)
Lemma Parse_fuel (fuel : nat) :
  forall m : list byte, (length m < fuel)%nat -> returns (Parse fuel m).
Proof.
  induction fuel as [|fuel IH]; intros m Hlen; [lia|].
  cbn [Parse]. apply returns_bind; [apply returns_readLine|].
  intros [line r1] Hline. destruct (readLine_inv _ _ _ Hline) as (pre & -> & _ & ->).
  rewrite !length_app in Hlen. simpl in Hlen.
  apply returns_bind; [apply returns_index|]. intros c _.
  destruct (Byte.eqb c "-"%byte); [discriminate|].
  destruct (Byte.eqb c "+"%byte); [discriminate|].
  destruct (Byte.eqb c ":"%byte); [discriminate|].
  destruct (Byte.eqb c "$"%byte).
  { apply returns_bind; [apply returns_slice|]. intros b _.
    apply returns_bind; [apply returns_Btoi|]. intros size _.
    apply returns_bind; [apply returns_ReadBulk|]. intros [raw r2] _. discriminate. }
  destruct (Byte.eqb c "*"%byte).
  { apply returns_bind; [apply returns_slice|]. intros b _.
    apply returns_bind; [apply returns_Btoi|]. intros i _.
    destruct (0 <=? i); [|discriminate].
    apply returns_bind.
    - apply (returns_Parse_multi (Parse fuel) (length r1)); [| |lia].
      + intros m Hm. apply IH. lia.
      + intros m r rest. apply Parse_consumes.
    - intros [multi r2] _. discriminate. }
  destruct (negb (IsLetter c)); [discriminate|].
  apply returns_bind; [apply returns_Parse_telnet_loop|]. intros multi _. discriminate.
Qed.

(** [decode] always answers: a value, an error or a panic. *)
Lemma decode_returns (m : list byte) : returns (decode m).
Proof. apply Parse_fuel. lia. Qed.

Lemma Parse_multi_fuel_mono (p1 p2 : list byte -> res (Resp * list byte)) :
  (forall m, returns (p1 m) -> p2 m = p1 m) ->
  forall (k : nat) (r : list byte),
    returns (Parse_multi p1 k r) -> Parse_multi p2 k r = Parse_multi p1 k r.
Proof.
  intros Hp. induction k as [|k IH]; intros r Hret; simpl in *; [reflexivity|].
  assert (H1 : returns (p1 r)).
  { intros E. rewrite E in Hret. now apply Hret. }
  rewrite (Hp _ H1). destruct (p1 r) as [[rp r2]| | |]; cbn [bind] in *; try reflexivity.
  assert (H2 : returns (Parse_multi p1 k r2)).
  { intros E. rewrite E in Hret. now apply Hret. }
  rewrite (IH _ H2). reflexivity.
Qed.

(** More fuel does not change what [Parse] answers. *)
Lemma Parse_fuel_mono (fuel : nat) :
  forall (fuel' : nat) (m : list byte),
    (fuel <= fuel')%nat -> returns (Parse fuel m) -> Parse fuel' m = Parse fuel m.
Proof.
  induction fuel as [|fuel IH]; intros fuel' m Hle Hret; [now exfalso; apply Hret|].
  destruct fuel' as [|fuel']; [lia|]. cbn [Parse] in *.
  destruct (readLine m) as [[line r1]| | |]; cbn [bind] in *; try reflexivity.
  destruct (index line 0) as [c| | |]; cbn [bind] in *; try reflexivity.
  destruct (Byte.eqb c "-"%byte); [reflexivity|].
  destruct (Byte.eqb c "+"%byte); [reflexivity|].
  destruct (Byte.eqb c ":"%byte); [reflexivity|].
  destruct (Byte.eqb c "$"%byte); [reflexivity|].
  destruct (Byte.eqb c "*"%byte); [|reflexivity].
  destruct (slice line 1 (len line - 2)) as [b| | |]; cbn [bind] in *; try reflexivity.
  destruct (Btoi b) as [i| | |]; cbn [bind] in *; try reflexivity.
  destruct (0 <=? i); [|reflexivity].
  rewrite (Parse_multi_fuel_mono (Parse fuel) (Parse fuel')); [reflexivity| |].
  - intros m' Hm'. apply IH; [lia|assumption].
  - intros E. rewrite E in Hret. now apply Hret.
Qed.

(** ** Array count *)

Lemma Parse_multi_length (parse : list byte -> res (Resp * list byte)) (k : nat) :
  forall (r : list byte) (multi : list Resp) (rest : list byte),
    Parse_multi parse k r = Ok (multi, rest) -> length multi = k.
Proof.
  induction k as [|k IH]; intros r multi rest H; simpl in H.
  - injection H as <- <-. reflexivity.
  - bind_inv H. destruct a as [rp r2]. bind_inv H. destruct a as [multi' r3].
    injection H as <- <-. simpl. f_equal. eapply IH; eauto.
Qed.

(** An array read from multi-bulk form has as many children as its header
    declares, and none when the header declares a negative count. *)
Lemma Parse_array_count (fuel : nat) (m : list byte) (r : Resp) (rest : list byte) :
  Parse fuel m = Ok (r, rest) -> index m 0 = Ok "*"%byte ->
  exists n, declaredCount r = Ok n /\
            (0 <= n -> len (Multi r) = n) /\ (n < 0 -> Multi r = []).
Proof.
  destruct fuel as [|fuel]; [discriminate|]. intros H Hm0.
  destruct (Parse_inv _ _ _ _ H) as (line & r1 & c & Hline & Hc & Hbr).
  assert (Hstar : c = "*"%byte).
  { pose proof (readLine_first _ _ _ _ Hline Hc) as Hf. congruence. }
  destruct Hbr as [E _ _ | E _ _ | E _ _ | b size raw E _ _ _ _
                  | b i multi _ Hb Hi Hpos Hmulti -> | b i _ Hb Hi Hneg -> _
                  | multi E _ _ _ _];
    try (rewrite E in Hstar; discriminate); try contradiction.
  - exists i. unfold declaredCount. cbn [Raw Multi]. rewrite Hb. cbn [bind].
    repeat apply conj; [assumption| |lia].
    intros _. apply Parse_multi_length in Hmulti. len_lia.
  - exists i. unfold declaredCount. cbn [Raw Multi]. rewrite Hb. cbn [bind].
    repeat apply conj; [assumption|lia|reflexivity].
Qed.

(** C4.  The array synthesized from a telnet command takes its header from
    [len(strs)], the number of pieces before the empty ones are dropped: for
    [GET  foo] (two spaces) the header declares 3 and there are 2 children. *)
Theorem telnet_header_counts_empty_tokens :
  exists r,
    decode (wire ["GET  foo"]) = Ok (r, []) /\
    Type_ r = MultiResp /\
    Raw r = wire ["*3"] /\
    declaredCount r = Ok 3 /\
    Multi r = [mkResp BulkResp (wire ["$3"; "GET"]) [];
               mkResp BulkResp (wire ["$3"; "foo"]) []] /\
    len (Multi r) = 2.
Proof.
  exists_decoded. repeat apply conj; vm_compute; reflexivity.
Qed.

(** ** Key extraction *)

Lemma bytes_eqb_eq (a b : list byte) : bytes_eqb a b = true <-> a = b.
Proof.
  unfold bytes_eqb. destruct (list_eq_dec Byte.byte_eq_dec a b); split; congruence.
Qed.

(** [keyFun] holds [thridAsKey] for the names of [thridAsKeyTbl] and nothing
    else. *)
Lemma lookup_table {V : Type} (f : V) (tbl : list (list byte)) (name : list byte) :
  (In name tbl -> lookup (map (fun v => (v, f)) tbl) name = Some f) /\
  (~ In name tbl -> lookup (map (fun v => (v, f)) tbl) name = None).
Proof.
  induction tbl as [|v tbl [IHin IHout]]; simpl.
  - split; [intros []|reflexivity].
  - destruct (bytes_eqb v name) eqn:E.
    + apply bytes_eqb_eq in E. split; [reflexivity|]. intros H. exfalso. apply H. now left.
    + assert (Hne : v <> name).
      { intros ->. assert (bytes_eqb name name = true) by (now apply bytes_eqb_eq).
        congruence. }
      split.
      * intros [H|H]; [contradiction|]. now apply IHin.
      * intros H. apply IHout. intros Hin. apply H. now right.
Qed.

Lemma lookup_keyFun_in (name : list byte) :
  In name thridAsKeyTbl -> lookup keyFun name = Some thridAsKey.
Proof. apply (lookup_table thridAsKey). Qed.

Lemma lookup_keyFun_out (name : list byte) :
  ~ In name thridAsKeyTbl -> lookup keyFun name = None.
Proof. apply (lookup_table thridAsKey). Qed.

(** C2.  [thridAsKey] takes its keys with [raw2Bulk] alone, without the second
    step of the payload extraction, and so does the [numKeys] it hands to
    [Btoi]: for [EVALSHA sha 2 keyA keyB arg1] the count read is that of
    ["1\r\n2"], which [Btoi] accepts as -2878, and [Keys] returns all three
    remaining children, each still carrying its length header. *)
Theorem thridAsKey_keeps_length_header :
  exists r,
    decode (wire ["*6"; "$7"; "EVALSHA"; "$3"; "sha"; "$1"; "2";
                  "$4"; "keyA"; "$4"; "keyB"; "$4"; "arg1"]) = Ok (r, []) /\
    Op r = Ok (bytes "EVALSHA") /\
    index (Multi r) 2 = Ok (mkResp BulkResp (wire ["$1"; "2"]) []) /\
    raw2Bulk (mkResp BulkResp (wire ["$1"; "2"]) []) = Ok (bytes "1" ++ NEW_LINE ++ bytes "2") /\
    Btoi (bytes "1" ++ NEW_LINE ++ bytes "2") = Ok (-2878) /\
    Keys r = Ok [bytes "4" ++ NEW_LINE ++ bytes "keyA";
                 bytes "4" ++ NEW_LINE ++ bytes "keyB";
                 bytes "4" ++ NEW_LINE ++ bytes "arg1"] /\
    Keys r <> Ok [bytes "keyA"; bytes "keyB"].
Proof.
  exists_decoded. repeat apply conj; try (vm_compute; reflexivity).
  vm_compute. discriminate.
Qed.

(** C6.  [noKeyOps] maps PING, SLOTSNUM and SLOTSCHECK to the placeholder, but
    neither [Keys] nor [Key] reads [noKeyOps]: none of the three is in
    [keyFun], so each takes the default strategy, and for [PING foo] [Key]
    returns the argument. *)
Theorem noKeyOps_not_consulted :
  (exists r,
      decode (wire ["*2"; "$4"; "PING"; "$3"; "foo"]) = Ok (r, []) /\
      Op r = Ok (bytes "PING") /\
      lookup noKeyOps (bytes "PING") = Some fakeKey /\
      Keys r = Ok [bytes "foo"] /\
      Key r = Ok (bytes "foo")) /\
  (forall (r : Resp) (name : list byte),
      Op r = Ok name -> lookup noKeyOps name = Some fakeKey ->
      Keys r = defaultGetKeys r).
Proof.
  split.
  - exists_decoded. repeat apply conj; vm_compute; reflexivity.
  - intros r name Hop Hno. unfold Keys. rewrite Hop. cbn [bind].
    rewrite lookup_keyFun_out; [reflexivity|].
    unfold noKeyOps in Hno. simpl lookup in Hno.
    repeat match type of Hno with
           | (if bytes_eqb ?k name then _ else _) = _ =>
               let E := fresh "E" in
               destruct (bytes_eqb k name) eqn:E;
               [apply bytes_eqb_eq in E; subst name;
                simpl; intros [H|[H|[H|[H|[]]]]]; vm_compute in H; discriminate|]
           end.
    discriminate Hno.
Qed.

(** C7.  [Key] of EVAL without arguments and [Key] of PING, decoded from
    multi-bulk or from telnet form, are the placeholder key, with no error;
    and for every command of the third-argument-count strategy with fewer
    than 4 children [Keys] returns the placeholder key alone. *)
Theorem fallback_key :
  (exists r, decode (wire ["*1"; "$4"; "EVAL"]) = Ok (r, []) /\ Key r = Ok fakeKey) /\
  (exists r, decode (wire ["*1"; "$4"; "PING"]) = Ok (r, []) /\ Key r = Ok fakeKey) /\
  (exists r, decode (wire ["EVAL"]) = Ok (r, []) /\ Key r = Ok fakeKey) /\
  (exists r, decode (wire ["PING"]) = Ok (r, []) /\ Key r = Ok fakeKey) /\
  (forall (r : Resp) (name : list byte),
      Op r = Ok name -> In name thridAsKeyTbl -> len (Multi r) < 4 ->
      Keys r = Ok [fakeKey]).
Proof.
  repeat apply conj.
  - exists_decoded. split; vm_compute; reflexivity.
  - exists_decoded. split; vm_compute; reflexivity.
  - exists_decoded. split; vm_compute; reflexivity.
  - exists_decoded. split; vm_compute; reflexivity.
  - intros r name Hop Hin Hlen. unfold Keys. rewrite Hop. cbn [bind].
    rewrite (lookup_keyFun_in name Hin). unfold thridAsKey.
    apply Z.ltb_lt in Hlen. rewrite Hlen. reflexivity.
Qed.

Lemma fallback_key_witness :
  Keys (mkResp MultiResp (wire ["*3"])
          [mkResp BulkResp (wire ["$4"; "EVAL"]) [];
           mkResp BulkResp (wire ["$8"; "return 1"]) [];
           mkResp BulkResp (wire ["$1"; "0"]) []]) = Ok [fakeKey].
Proof.
  apply (proj2 (proj2 (proj2 (proj2 fallback_key)))) with (name := bytes "EVAL").
  - vm_compute. reflexivity.
  - simpl. tauto.
  - vm_compute. reflexivity.
Defined.

(** C5 as stated fails for [Key]: on the decoded simple string [+OK], which
    is no command, [Keys] fails and [Key] returns the placeholder key with a
    nil error. *)
Lemma Key_hides_Keys_error :
  ~ (forall (m : list byte) (r : Resp) (rest : list byte) (e : error),
        decode m = Ok (r, rest) -> Keys r = Err e -> Key r = Err e).
Proof.
  intros H.
  specialize (H (wire ["+OK"]) (mkResp SimpleString (wire ["+OK"]) []) []
                InvalidResp eq_refl eq_refl).
  vm_compute in H. discriminate.
Qed.

(** C5, amended.  [Keys] reports every failure of the extraction to its
    caller: the failure of [Op] (among them: the value has no children), and
    the failure of the strategy it selects (among them: the [numKeys] child
    does not parse as an integer).  [Key] reports none: whenever [Keys]
    fails it returns the placeholder key and a nil error. *)
Theorem Keys_reports_Key_falls_back (r : Resp) (e : error) :
  (Op r = Err e -> Keys r = Err e) /\
  (Multi r = [] -> Keys r = Err InvalidResp) /\
  (forall name : list byte,
      Op r = Ok name -> In name thridAsKeyTbl -> thridAsKey r = Err e ->
      Keys r = Err e) /\
  (forall (name : list byte) (m2 : Resp) (b : list byte),
      Op r = Ok name -> In name thridAsKeyTbl -> 4 <= len (Multi r) ->
      index (Multi r) 2 = Ok m2 -> raw2Bulk m2 = Ok b -> Btoi b = Err e ->
      Keys r = Err e) /\
  (forall name : list byte,
      Op r = Ok name -> ~ In name thridAsKeyTbl -> defaultGetKeys r = Err e ->
      Keys r = Err e) /\
  (Keys r = Err e -> Key r = Ok fakeKey).
Proof.
  repeat apply conj.
  - intros Hop. unfold Keys. rewrite Hop. reflexivity.
  - intros Hm. unfold Keys, Op. rewrite Hm. reflexivity.
  - intros name Hop Hin Hf. unfold Keys. rewrite Hop. cbn [bind].
    rewrite (lookup_keyFun_in name Hin). exact Hf.
  - intros name m2 b Hop Hin Hlen Hm2 Hb Hn. unfold Keys. rewrite Hop. cbn [bind].
    rewrite (lookup_keyFun_in name Hin). unfold thridAsKey.
    assert (Hl : (len (Multi r) <? 4) = false) by (apply Z.ltb_ge; lia).
    rewrite Hl, Hm2. cbn [bind]. rewrite Hb. cbn [bind]. rewrite Hn. reflexivity.
  - intros name Hop Hout Hf. unfold Keys. rewrite Hop. cbn [bind].
    rewrite (lookup_keyFun_out name Hout). exact Hf.
  - intros Hk. unfold Key. rewrite Hk. reflexivity.
Qed.

Lemma Keys_reports_Key_falls_back_witness :
  let ok := mkResp SimpleString (wire ["+OK"]) [] in
  let eval := mkResp MultiResp (wire ["*4"])
                [mkResp BulkResp (wire ["$4"; "EVAL"]) [];
                 mkResp BulkResp (wire ["$8"; "return 1"]) [];
                 mkResp BulkResp (wire ["$3"; "abc"]) [];
                 mkResp BulkResp (wire ["$2"; "k1"]) []] in
  let get := mkResp MultiResp (wire ["*2"])
                [mkResp BulkResp (wire ["$3"; "GET"]) [];
                 mkResp IntegerResp (wire [":5"]) []] in
  decode (wire ["+OK"]) = Ok (ok, []) /\
  Keys ok = Err InvalidResp /\ Key ok = Ok fakeKey /\
  decode (wire ["*4"; "$4"; "EVAL"; "$8"; "return 1"; "$3"; "abc"; "$2"; "k1"]) = Ok (eval, []) /\
  Keys eval = Err InvalidNumber /\ Key eval = Ok fakeKey /\
  decode (wire ["*2"; "$3"; "GET"; ":5"]) = Ok (get, []) /\
  Keys get = Err InvalidResp.
Proof.
  intros ok eval get.
  pose proof (Keys_reports_Key_falls_back ok InvalidResp) as (H1 & H2 & _ & _ & _ & H6).
  pose proof (Keys_reports_Key_falls_back eval InvalidNumber) as (_ & _ & E3 & E4 & _ & E6).
  pose proof (Keys_reports_Key_falls_back get InvalidResp) as (_ & _ & _ & _ & G5 & _).
  assert (Hok : Keys ok = Err InvalidResp) by (apply H1; vm_compute; reflexivity).
  assert (Heval : Keys eval = Err InvalidNumber).
  { apply (E4 (bytes "EVAL") (mkResp BulkResp (wire ["$3"; "abc"]) [])
              (bytes "3" ++ NEW_LINE ++ bytes "abc")).
    - vm_compute; reflexivity.
    - simpl; tauto.
    - vm_compute; discriminate.
    - vm_compute; reflexivity.
    - vm_compute; reflexivity.
    - vm_compute; reflexivity. }
  assert (Hget : Keys get = Err InvalidResp).
  { apply (G5 (bytes "GET")).
    - vm_compute; reflexivity.
    - simpl. intros [H|[H|[H|[H|[]]]]]; vm_compute in H; discriminate.
    - vm_compute; reflexivity. }
  repeat apply conj.
  - vm_compute; reflexivity.
  - exact Hok.
  - apply H6. exact Hok.
  - vm_compute; reflexivity.
  - exact Heval.
  - apply E6. exact Heval.
  - vm_compute; reflexivity.
  - exact Hget.
Defined.

(** ** Default strategy *)

Lemma slice_mid {A : Type} (a b c : list A) (lo hi : Z) :
  lo = len a -> hi = len a + len b -> slice (a ++ b ++ c) lo hi = Ok b.
Proof.
  intros -> ->. unfold slice.
  assert (H1 : (0 <=? len a) = true) by (apply Z.leb_le; apply len_nonneg).
  assert (H2 : (len a <=? len a + len b) = true)
    by (apply Z.leb_le; pose proof (len_nonneg b); lia).
  assert (H3 : (len a + len b <=? len (a ++ b ++ c)) = true)
    by (apply Z.leb_le; rewrite !len_app; pose proof (len_nonneg c); lia).
  rewrite H1, H2, H3. simpl. f_equal.
  replace (Z.to_nat (len a + len b - len a)) with (length b) by (unfold len; lia).
  replace (Z.to_nat (len a)) with (length a) by (unfold len; lia).
  rewrite skipn_app, skipn_all, Nat.sub_diag. simpl.
  rewrite firstn_app, firstn_all, Nat.sub_diag. simpl. apply app_nil_r.
Qed.

Lemma sliceFrom_app {A : Type} (a b : list A) (lo : Z) :
  lo = len a -> sliceFrom (a ++ b) lo = Ok b.
Proof.
  intros ->. unfold sliceFrom.
  pose proof (slice_mid a b [] (len a) (len (a ++ b)) eq_refl) as H.
  rewrite app_nil_r in H. apply H. apply len_app.
Qed.

Lemma IndexByte_app (c : byte) (pre post : list byte) :
  ~ In c pre -> IndexByte (pre ++ c :: post) c = len pre.
Proof.
  induction pre as [|x pre IH]; intros Hnot; simpl.
  - rewrite (Byte.byte_dec_lb eq_refl). reflexivity.
  - destruct (Byte.eqb x c) eqn:E.
    + apply Byte.byte_dec_bl in E. exfalso. apply Hnot. now left.
    + rewrite IH by (intros Hin; apply Hnot; now right).
      pose proof (len_nonneg pre) as Hp.
      destruct (len pre <? 0) eqn:E0; [apply Z.ltb_lt in E0; lia|]. len_lia.
Qed.

Lemma In_LF_app_CR (pre : list byte) : ~ In LF pre -> ~ In LF (pre ++ [CR]).
Proof.
  intros Hnot Hin. apply in_app_or in Hin as [Hin|[Hin|[]]]; [contradiction|discriminate].
Qed.

(** The two steps of the payload extraction, on such a node. *)
Lemma BulkOf_extract (pre : list byte) (size : Z) (buf : list byte) (c : Resp) :
  BulkOf pre size buf c ->
  raw2Bulk c = Ok (pre ++ NEW_LINE ++ buf) /\
  IndexByte (pre ++ NEW_LINE ++ buf) LF = len pre + 1 /\
  sliceFrom (pre ++ NEW_LINE ++ buf) (len pre + 1 + 1) = Ok buf /\
  bulkPayload c = buf.
Proof.
  intros (Hnot & Hsize & Hpos & Hlen & Hraw).
  assert (Hidx : IndexByte (Raw c) LF = len pre + 2).
  { rewrite Hraw.
    replace (["$"%byte] ++ (pre ++ NEW_LINE ++ buf) ++ NEW_LINE)
      with ((("$"%byte :: pre) ++ [CR]) ++ LF :: (buf ++ NEW_LINE))
      by (simpl; rewrite <- !app_assoc; reflexivity).
    rewrite IndexByte_app.
    - len_lia.
    - apply (In_LF_app_CR ("$"%byte :: pre)). intros [H|H]; [discriminate|contradiction]. }
  repeat apply conj.
  - unfold raw2Bulk. rewrite Hraw. apply slice_mid; [reflexivity|len_lia].
  - replace (pre ++ NEW_LINE ++ buf) with ((pre ++ [CR]) ++ LF :: buf)
      by (rewrite <- app_assoc; reflexivity).
    rewrite IndexByte_app by now apply In_LF_app_CR. len_lia.
  - replace (pre ++ NEW_LINE ++ buf) with ((pre ++ NEW_LINE) ++ buf)
      by (rewrite <- app_assoc; reflexivity).
    apply sliceFrom_app. len_lia.
  - unfold bulkPayload, bulkSize. rewrite Hidx.
    assert (Hs : slice (Raw c) 1 (len pre + 2 - 1) = Ok pre).
    { rewrite Hraw. rewrite <- !app_assoc. apply slice_mid; [reflexivity|len_lia]. }
    rewrite Hs. cbn [bind]. rewrite Hsize, Hraw.
    replace (["$"%byte] ++ (pre ++ NEW_LINE ++ buf) ++ NEW_LINE)
      with ((["$"%byte] ++ pre ++ NEW_LINE) ++ buf ++ NEW_LINE)
      by (rewrite <- !app_assoc; reflexivity).
    replace (Z.to_nat (len pre + 2 + 1)) with (length (["$"%byte] ++ pre ++ NEW_LINE))
      by len_lia.
    rewrite skipn_app, skipn_all, Nat.sub_diag. simpl skipn. rewrite app_nil_l.
    rewrite <- Hlen. rewrite firstn_app, firstn_all, Nat.sub_diag. simpl. apply app_nil_r.
Qed.

(** The header line of a value that starts with ['$']. *)
Lemma bulk_header (m line r1 : list byte) :
  readLine m = Ok (line, r1) -> index line 0 = Ok "$"%byte ->
  exists pre, ~ In LF pre /\ line = ["$"%byte] ++ pre ++ NEW_LINE /\
              slice line 1 (len line - 2) = Ok pre /\
              IndexByte line LF = len pre + 2.
Proof.
  intros Hline Hc. destruct (readLine_inv _ _ _ Hline) as (pre0 & -> & Hnot & _).
  destruct pre0 as [|x pre]; [discriminate|].
  simpl in Hc. injection Hc as ->. exists pre.
  assert (Hpre : ~ In LF pre) by (intros Hin; apply Hnot; now right).
  repeat apply conj.
  - exact Hpre.
  - reflexivity.
  - change (("$"%byte :: pre) ++ [CR; LF]) with (["$"%byte] ++ pre ++ NEW_LINE).
    apply slice_mid; [reflexivity|len_lia].
  - replace (("$"%byte :: pre) ++ [CR; LF]) with ((("$"%byte :: pre) ++ [CR]) ++ LF :: [])
      by (rewrite <- app_assoc; reflexivity).
    rewrite IndexByte_app; [len_lia|].
    apply (In_LF_app_CR ("$"%byte :: pre)). exact Hnot.
Qed.

(** Every Bulk node that [Parse] returns and that is not the null bulk has
    the shape [BulkOf]. *)
Lemma Parse_bulk (fuel : nat) (m : list byte) (c : Resp) (rest : list byte) :
  Parse fuel m = Ok (c, rest) -> isBulkString c = true ->
  exists pre size buf, BulkOf pre size buf c.
Proof.
  destruct fuel as [|fuel]; [discriminate|]. intros H Hb.
  destruct (Parse_inv _ _ _ _ H) as (line & r1 & ch & Hline & Hc & Hbr).
  destruct Hbr as [_ -> _ | _ -> _ | _ -> _ | b size raw -> Hsl Hsz Hrb ->
                  | b i multi _ _ _ _ _ -> | b i _ _ _ _ -> _ | multi _ _ _ -> _];
    try discriminate.
  destruct (bulk_header _ _ _ Hline Hc) as (pre & Hnot & Hl & Hsl' & Hidx).
  rewrite Hsl' in Hsl. injection Hsl as <-.
  destruct (ReadBulk_inv _ _ _ _ _ Hrb) as [(Hneg & -> & _) | (Hpos & buf & Hlen & -> & _)].
  - exfalso. unfold isBulkString, bulkSize in Hb. cbn [Type_ Raw] in Hb.
    rewrite Hidx in Hb. replace (len pre + 2 - 1) with (len line - 2) in Hb
      by (rewrite Hl; len_lia).
    rewrite Hsl' in Hb. cbn [bind] in Hb. rewrite Hsz in Hb.
    apply Z.leb_le in Hb. lia.
  - exists pre, size, buf. unfold BulkOf. cbn [Raw]. repeat apply conj; try assumption.
    rewrite Hl, <- !app_assoc. reflexivity.
Qed.

Lemma Parse_multi_Forall (parse : list byte -> res (Resp * list byte)) (k : nat) :
  forall (r : list byte) (multi : list Resp) (rest : list byte),
    Parse_multi parse k r = Ok (multi, rest) ->
    Forall (fun c => exists m' rest', parse m' = Ok (c, rest')) multi.
Proof.
  induction k as [|k IH]; intros r multi rest H; simpl in H.
  - injection H as <- <-. constructor.
  - bind_inv H. destruct a as [rp r2]. bind_inv H. destruct a as [multi' r3].
    injection H as <- <-. constructor; [eauto|]. eapply IH; eauto.
Qed.

Lemma defaultGetKeys_loop_payloads (vs : list Resp) :
  forall keys : list (list byte),
    Forall (fun c => exists pre size buf, BulkOf pre size buf c) vs ->
    defaultGetKeys_loop vs keys = Ok (keys ++ map bulkPayload vs).
Proof.
  induction vs as [|v vs IH]; intros keys Hall; simpl.
  - now rewrite app_nil_r.
  - inversion Hall as [|? ? (pre & size & buf & Hv) Hall']; subst.
    destruct (BulkOf_extract _ _ _ _ Hv) as (Hraw & Hidx & Hsl & Hpay).
    rewrite Hraw. cbn [bind]. rewrite Hidx.
    assert (Hge : (len pre + 1 <? 0) = false)
      by (apply Z.ltb_ge; pose proof (len_nonneg pre); lia).
    rewrite Hge, Hsl. cbn [bind]. rewrite IH by assumption.
    rewrite Hpay, <- app_assoc. reflexivity.
Qed.

(** [Op] of a command whose first child is such a node is that child's
    payload. *)
Lemma Op_payload (r cmd : Resp) (args : list Resp) (pre : list byte) (size : Z)
  (buf : list byte) :
  Multi r = cmd :: args -> BulkOf pre size buf cmd -> Op r = Ok (bulkPayload cmd).
Proof.
  intros EM Hcmd. destruct (BulkOf_extract _ _ _ _ Hcmd) as (Hraw & Hidx & Hsl & Hpay).
  unfold Op. rewrite EM. change (index (cmd :: args) 0) with (Ok cmd).
  assert (Hlen : (0 <? len (cmd :: args)) = true) by (apply Z.ltb_lt; len_lia).
  rewrite Hlen. cbn [bind]. rewrite Hraw. cbn [bind]. rewrite Hidx.
  assert (Hge : (len pre + 1 <? 0) = false)
    by (apply Z.ltb_ge; pose proof (len_nonneg pre); lia).
  rewrite Hge, Hsl, Hpay. reflexivity.
Qed.

(** The children of an array that [Parse] read from multi-bulk form are
    values that [Parse] returned. *)
Lemma Parse_children (fuel : nat) (m : list byte) (r : Resp) (rest : list byte) :
  Parse fuel m = Ok (r, rest) -> index m 0 = Ok "*"%byte ->
  Forall (fun c => exists fuel' m' rest', Parse fuel' m' = Ok (c, rest')) (Multi r).
Proof.
  destruct fuel as [|fuel]; [discriminate|]. intros H Hm0.
  destruct (Parse_inv _ _ _ _ H) as (line & r1 & c & Hline & Hc & Hbr).
  assert (Hstar : c = "*"%byte).
  { pose proof (readLine_first _ _ _ _ Hline Hc) as Hf. congruence. }
  destruct Hbr as [E _ _ | E _ _ | E _ _ | b size raw E _ _ _ _
                  | b i multi _ _ _ _ Hmulti -> | b i _ _ _ _ -> _ | multi E _ _ _ _];
    try (rewrite E in Hstar; discriminate); try contradiction.
  - cbn [Multi]. apply Parse_multi_Forall in Hmulti.
    rewrite Forall_forall in *. intros c' Hin.
    destruct (Hmulti _ Hin) as (m' & rest' & Hp). eauto.
  - constructor.
Qed.

(** C8.  For a command decoded from multi-bulk form, all of whose children
    are bulk strings and whose name (the payload of the first) is not in the
    strategy table, [Keys] returns the payload of every child after the first,
    in order: for each exactly the bytes its header declares, without the
    header. *)
Theorem default_strategy_payloads (m : list byte) (r : Resp) (rest : list byte)
  (cmd : Resp) (args : list Resp) :
  decode m = Ok (r, rest) ->
  index m 0 = Ok "*"%byte ->
  Multi r = cmd :: args ->
  forallb isBulkString (cmd :: args) = true ->
  ~ In (bulkPayload cmd) thridAsKeyTbl ->
  Op r = Ok (bulkPayload cmd) /\ Keys r = Ok (map bulkPayload args).
Proof.
  intros Hdec Hm0 EM Hbulk Hname.
  assert (Hshape : Forall (fun c => exists pre size buf, BulkOf pre size buf c)
                     (cmd :: args)).
  { pose proof (Parse_children _ _ _ _ Hdec Hm0) as Hch. rewrite EM in Hch.
    rewrite forallb_forall in Hbulk. rewrite Forall_forall in *. intros c Hin.
    destruct (Hch _ Hin) as (fuel' & m' & rest' & Hp).
    exact (Parse_bulk _ _ _ _ Hp (Hbulk _ Hin)). }
  inversion Hshape as [|? ? (pre & size & buf & Hcmd) Hargs]; subst.
  pose proof (Op_payload r cmd args pre size buf EM Hcmd) as Hop.
  split; [exact Hop|].
  unfold Keys. rewrite Hop. cbn [bind]. rewrite (lookup_keyFun_out _ Hname).
  unfold defaultGetKeys. rewrite EM.
  assert (Hsl : sliceFrom (cmd :: args) 1 = Ok args)
    by (apply (sliceFrom_app [cmd] args); reflexivity).
  rewrite Hsl. cbn [bind].
  destruct (len args =? 0) eqn:E0.
  - destruct args; [reflexivity|]. apply Z.eqb_eq in E0. len_lia.
  - now rewrite defaultGetKeys_loop_payloads.
Qed.

Lemma default_strategy_payloads_witness :
  exists r,
    decode (wire ["*3"; "$3"; "SET"; "$3"; "foo"; "$3"; "bar"]) = Ok (r, []) /\
    Op r = Ok (bytes "SET") /\
    Keys r = Ok [bytes "foo"; bytes "bar"].
Proof.
  exists_decoded. split; [vm_compute; reflexivity|].
  apply (default_strategy_payloads
           (wire ["*3"; "$3"; "SET"; "$3"; "foo"; "$3"; "bar"]) _ []
           (mkResp BulkResp (wire ["$3"; "SET"]) [])
           [mkResp BulkResp (wire ["$3"; "foo"]) [];
            mkResp BulkResp (wire ["$3"; "bar"]) []]).
  - vm_compute; reflexivity.
  - vm_compute; reflexivity.
  - vm_compute; reflexivity.
  - vm_compute; reflexivity.
  - simpl. intros [H|[H|[H|[H|[]]]]]; vm_compute in H; discriminate.
Defined.

(** * Further properties *)

(** ** Integer codec: the value [Btoi] returns *)

Lemma wrap_mod (z : Z) : wrap z mod 2 ^ 64 = z mod 2 ^ 64.
Proof.
  unfold wrap. rewrite Zminus_mod_idemp_l. f_equal. lia.
Qed.

Lemma wrap_congr (a b : Z) : a mod 2 ^ 64 = b mod 2 ^ 64 -> wrap a = wrap b.
Proof.
  intros H. unfold wrap. f_equal.
  rewrite <- (Zplus_mod_idemp_l a), <- (Zplus_mod_idemp_l b), H. reflexivity.
Qed.

Lemma wrap_small (z : Z) : - 2 ^ 63 <= z < 2 ^ 63 -> wrap z = z.
Proof. intros H. unfold wrap. rewrite Z.mod_small; lia. Qed.

Lemma step_congr (a a' d : Z) :
  a mod 2 ^ 64 = a' mod 2 ^ 64 ->
  wrap (wrap (a * 10) + d) mod 2 ^ 64 = (a' * 10 + d) mod 2 ^ 64.
Proof.
  intros H. rewrite wrap_mod.
  rewrite <- Zplus_mod_idemp_l, wrap_mod, Zplus_mod_idemp_l.
  rewrite <- (Zplus_mod_idemp_l (a * 10)), <- (Zplus_mod_idemp_l (a' * 10)).
  rewrite <- (Zmult_mod_idemp_l a), <- (Zmult_mod_idemp_l a'), H. reflexivity.
Qed.

(** Wrapping after each step or once at the end is the same. *)
Lemma hornerW_horner (l : list byte) : forall n n' : Z,
  n mod 2 ^ 64 = n' mod 2 ^ 64 -> hornerW n l mod 2 ^ 64 = horner n' l mod 2 ^ 64.
Proof.
  induction l as [|c l IH]; intros n n' H; [exact H|].
  unfold hornerW, horner. cbn [fold_left]. apply IH. now apply step_congr.
Qed.

Lemma skipn_cons_inv {A : Type} (n : nat) : forall (b : list A) (c : A) (t : list A),
  skipn n b = c :: t -> nth_error b n = Some c /\ skipn (S n) b = t.
Proof.
  induction n as [|n IH]; intros b c t H.
  - destruct b; [discriminate|]. injection H as -> ->. auto.
  - destruct b as [|x b]; [discriminate|]. simpl in H. apply IH in H. exact H.
Qed.

(** The loop on bytes that are all at most ['9'], none of them a leading
    minus sign. *)
Lemma Btoi_loop_accepts (k : nat) : forall (b : list byte) (i n sign : Z) (l : list byte),
  0 <= i -> firstn k (skipn (Z.to_nat i) b) = l -> length l = k ->
  Forall (fun c => code c <= code "9"%byte) l ->
  (i = 0 -> n = 0 /\ hd_error l <> Some "-"%byte) ->
  Btoi_loop k b i n sign = Ok (wrap (sign * hornerW n l)).
Proof.
  induction k as [|k IH]; intros b i n sign l Hi Hl Hlen Hall H0.
  - destruct l; [reflexivity|discriminate].
  - destruct l as [|c l]; [discriminate|].
    destruct (skipn (Z.to_nat i) b) as [|c' t] eqn:Es; [discriminate|].
    simpl in Hl. injection Hl as -> Hl. injection Hlen as Hlen.
    destruct (skipn_cons_inv _ _ _ _ Es) as [Hnth Hs].
    cbn [Btoi_loop]. unfold index.
    assert (Hi' : (i <? 0) = false) by (apply Z.ltb_ge; lia).
    rewrite Hi', Hnth. cbn [bind].
    assert (Hm : ((i =? 0) && Byte.eqb c "-"%byte) = false).
    { destruct (i =? 0) eqn:E0; [|reflexivity]. apply Z.eqb_eq in E0.
      destruct (H0 E0) as [_ Hhd]. simpl.
      destruct (Byte.eqb c "-"%byte) eqn:E; [|reflexivity].
      apply Byte.byte_dec_bl in E. subst c. now exfalso; apply Hhd. }
    rewrite Hm. pose proof (Forall_inv Hall) as Hc. cbv beta in Hc.
    pose proof (Forall_inv_tail Hall) as Hall'.
    assert (Hd : ((0 <=? code c) && (code c <=? code "9"%byte)) = true).
    { apply andb_true_iff. split; apply Z.leb_le; [unfold code; lia|exact Hc]. }
    rewrite Hd.
    assert (Hn : (if 0 <? i then wrap (n * 10) else n) = wrap (n * 10)).
    { destruct (0 <? i) eqn:E; [reflexivity|]. apply Z.ltb_ge in E.
      assert (i = 0) as Hi0 by lia. destruct (H0 Hi0) as [-> _]. reflexivity. }
    rewrite Hn.
    rewrite (IH b (i + 1) _ sign l); try assumption; try lia.
    + reflexivity.
    + replace (Z.to_nat (i + 1)) with (S (Z.to_nat i)) by lia. now rewrite Hs.
Qed.

Lemma wrap_sign_horner (sign n : Z) (l : list byte) :
  wrap (sign * hornerW n l) = wrap (sign * horner n l).
Proof.
  apply wrap_congr.
  rewrite <- (Zmult_mod_idemp_r (hornerW n l)), (hornerW_horner l n n eq_refl),
    Zmult_mod_idemp_r. reflexivity.
Qed.

Lemma mod_256_le (n : nat) : (n mod 256 <= n)%nat.
Proof. apply Nat.Div0.mod_le. Qed.

(** [Btoi] on an input that does not start with a minus sign. *)
Lemma Btoi_accepts_plain (b : list byte) :
  hd_error b <> Some "-"%byte ->
  Forall (fun c => code c <= code "9"%byte) (firstn (length b mod 256) b) ->
  Btoi b = Ok (wrap (decimal (firstn (length b mod 256) b))).
Proof.
  intros Hhd Hall. unfold Btoi. rewrite uint8_len.
  rewrite (Btoi_loop_accepts _ b 0 0 1 (firstn (length b mod 256) b)).
  - rewrite wrap_sign_horner. unfold decimal. f_equal; apply wrap_congr; f_equal; lia.
  - lia.
  - reflexivity.
  - rewrite length_firstn. pose proof (mod_256_le (length b)). lia.
  - exact Hall.
  - intros _. split; [reflexivity|].
    destruct (length b mod 256)%nat; [discriminate|]. destruct b; [discriminate|exact Hhd].
Qed.

(** [Btoi] on a minus sign followed by at least one byte. *)
Lemma Btoi_accepts_minus (t : list byte) :
  t <> [] ->
  Forall (fun c => code c <= code "9"%byte) (firstn (length ("-"%byte :: t) mod 256 - 1) t) ->
  Btoi ("-"%byte :: t) =
  Ok (wrap (- decimal (firstn (length ("-"%byte :: t) mod 256 - 1) t))).
Proof.
  intros Ht Hall. unfold Btoi. rewrite uint8_len.
  pose proof (mod_256_le (length ("-"%byte :: t))) as Hle.
  destruct (length ("-"%byte :: t) mod 256)%nat as [|k] eqn:EK; [reflexivity|].
  cbn [Btoi_loop]. change (index ("-"%byte :: t) 0) with (@Ok byte "-"%byte). cbn [bind].
  change ((0 =? 0) && Byte.eqb "-"%byte "-"%byte) with true. cbv iota.
  assert (H1 : (len ("-"%byte :: t) =? 1) = false).
  { apply Z.eqb_neq. destruct t; [contradiction|]. unfold len. simpl. lia. }
  rewrite H1. replace (S k - 1)%nat with k in * by lia.
  rewrite (Btoi_loop_accepts _ _ 1 0 (-1) (firstn k t)).
  - rewrite wrap_sign_horner. unfold decimal. f_equal; apply wrap_congr; f_equal; lia.
  - lia.
  - reflexivity.
  - rewrite length_firstn. simpl in Hle. lia.
  - exact Hall.
  - intros H. discriminate H.
Qed.

Lemma firstn_index_In (b : list byte) (k : nat) (c : byte) :
  In c (firstn k b) -> exists j, 0 <= j < Z.of_nat k /\ index b j = Ok c.
Proof.
  intros Hin. apply In_nth_error in Hin as [j Hj].
  assert (Hlt : (j < k)%nat).
  { assert (H : nth_error (firstn k b) j <> None) by congruence.
    apply nth_error_Some in H. rewrite length_firstn in H. lia. }
  rewrite nth_error_firstn in Hj.
  assert (Hltb : Nat.ltb j k = true) by (now apply Nat.ltb_lt).
  rewrite Hltb in Hj.
  exists (Z.of_nat j). split; [lia|]. rewrite index_nth_error, Hj. reflexivity.
Qed.

Lemma index_firstn_In (b : list byte) (k : nat) (j : Z) (c : byte) :
  0 <= j < Z.of_nat k -> index b j = Ok c -> In c (firstn k b).
Proof.
  intros Hj Hc. rewrite <- (Z2Nat.id j) in Hc by lia. rewrite index_nth_error in Hc.
  destruct (nth_error b (Z.to_nat j)) eqn:En; [|discriminate]. injection Hc as ->.
  apply (nth_error_In _ (Z.to_nat j)). rewrite nth_error_firstn.
  assert (Hltb : Nat.ltb (Z.to_nat j) k = true) by (apply Nat.ltb_lt; lia).
  now rewrite Hltb.
Qed.

(** [Btoi] either rejects its input, for one of the two reasons of
    [rejected], or returns a number. *)
Lemma Btoi_cases (b : list byte) :
  (rejected b /\ Btoi b = Err InvalidNumber) \/
  (~ rejected b /\ exists z, Btoi b = Ok z).
Proof.
  destruct (list_eq_dec Byte.byte_eq_dec b ["-"%byte]) as [->|Hne].
  { left. split; [now left|reflexivity]. }
  assert (HK : Z.of_nat (length b mod 256) = uint8 (len b)).
  { rewrite <- uint8_len. pose proof (uint8_range (len b)). lia. }
  destruct (Forall_Exists_dec (fun c => code c <= code "9"%byte)
              (fun c => Z_le_dec (code c) (code "9"%byte))
              (firstn (length b mod 256) b)) as [Hall|Hex].
  - right. split.
    + intros [->|(j & c & Hj & Hc & H9)]; [now apply Hne|].
      rewrite <- HK in Hj. pose proof (index_firstn_In _ _ _ _ Hj Hc) as Hin.
      rewrite Forall_forall in Hall. specialize (Hall _ Hin). cbv beta in Hall. lia.
    + destruct b as [|c t].
      * exists 0. reflexivity.
      * destruct (Byte.byte_eq_dec c "-"%byte) as [->|Hc].
        -- eexists. apply Btoi_accepts_minus.
           ++ intros ->. now apply Hne.
           ++ destruct (length ("-"%byte :: t) mod 256)%nat as [|k]; [constructor|].
              replace (S k - 1)%nat with k by lia.
              simpl in Hall. exact (Forall_inv_tail Hall).
        -- eexists. apply Btoi_accepts_plain; [|exact Hall].
           simpl. congruence.
  - left. apply Exists_exists in Hex as (c & Hin & Hgt).
    destruct (firstn_index_In _ _ _ Hin) as (j & Hj & Hc).
    rewrite HK in Hj.
    assert (H9 : code "9"%byte < code c) by lia.
    split.
    + right. exists j, c. auto.
    + exact (Btoi_rejects_above_9 b j c Hj Hc H9).
Qed.

(** X1.  [Btoi] fails exactly on a lone minus sign and on an input with a
    byte above ['9'] among its first [len(b) mod 256] bytes, always with
    "Invalid number"; on every other input it returns a number.  It never
    panics. *)
Theorem Btoi_fails_iff (b : list byte) :
  (Btoi b = Err InvalidNumber <-> rejected b) /\
  ((exists z, Btoi b = Ok z) <-> ~ rejected b).
Proof.
  destruct (Btoi_cases b) as [[Hr He]|[Hr [z Hz]]].
  - split; split; intros H.
    + exact Hr.
    + exact He.
    + destruct H as [z Hz]. congruence.
    + contradiction.
  - split; split; intros H.
    + congruence.
    + contradiction.
    + exact Hr.
    + eauto.
Qed.

(** [Btoi] on an input shorter than 256 bytes, all of them at most ['9']. *)
Lemma Btoi_decimal (b : list byte) :
  (length b < 256)%nat ->
  Forall (fun c => code c <= code "9"%byte) b ->
  (hd_error b <> Some "-"%byte -> Btoi b = Ok (wrap (decimal b))) /\
  (forall t, b = "-"%byte :: t -> t <> [] -> Btoi b = Ok (wrap (- decimal t))).
Proof.
  intros Hlen Hall.
  assert (HK : (length b mod 256 = length b)%nat) by (apply Nat.mod_small; exact Hlen).
  split.
  - intros Hhd. rewrite (Btoi_accepts_plain b Hhd); rewrite HK, firstn_all; auto.
  - intros t -> Ht. rewrite (Btoi_accepts_minus t Ht); rewrite HK; simpl length;
      replace (S (length t) - 1)%nat with (length t) by lia; rewrite firstn_all; auto.
    exact (Forall_inv_tail Hall).
Qed.

(** X2.  On an input shorter than 256 bytes, all of them at most ['9'],
    [Btoi] returns the decimal value of the bytes (a byte below ['0'] counting
    as the negative digit [c - '0']), negated after a leading minus sign, and
    reduced to 64 bits. *)
Theorem Btoi_value (b : list byte) :
  (length b < 256)%nat ->
  Forall (fun c => code c <= code "9"%byte) b ->
  (hd_error b <> Some "-"%byte -> Btoi b = Ok (wrap (decimal b))) /\
  (forall t, b = "-"%byte :: t -> t <> [] -> Btoi b = Ok (wrap (- decimal t))).
Proof. exact (Btoi_decimal b). Qed.

Lemma Btoi_value_witness :
  Btoi (bytes "1234") = Ok 1234 /\
  Btoi (bytes "-1234") = Ok (-1234) /\
  Btoi (bytes "99999999999999999999") = Ok 7766279631452241919.
Proof.
  repeat apply conj.
  - rewrite (proj1 (Btoi_value (bytes "1234") ltac:(vm_compute; lia)
                      ltac:(repeat constructor; vm_compute; discriminate)));
      [reflexivity|discriminate].
  - rewrite (proj2 (Btoi_value (bytes "-1234") ltac:(vm_compute; lia)
                      ltac:(repeat constructor; vm_compute; discriminate))
               (bytes "1234") eq_refl); [reflexivity|discriminate].
  - rewrite (proj1 (Btoi_value (bytes "99999999999999999999") ltac:(vm_compute; lia)
                      ltac:(repeat constructor; vm_compute; discriminate)));
      [reflexivity|discriminate].
Defined.

(** ** Integer codec: [Itoa] and back *)

Lemma uint_val_revapp (d : Decimal.uint) : forall d' : Decimal.uint,
  Z.of_N (DecimalPos.Unsigned.of_lu (Decimal.revapp d d')) =
  uint_val d (Z.of_N (DecimalPos.Unsigned.of_lu d')).
Proof.
  induction d; intros d'; cbn [Decimal.revapp uint_val]; [reflexivity|..];
    rewrite IHd; f_equal; cbn [DecimalPos.Unsigned.of_lu]; lia.
Qed.

Lemma uint_val_to_uint (p : positive) : uint_val (Pos.to_uint p) 0 = Z.pos p.
Proof.
  pose proof (uint_val_revapp (Pos.to_uint p) Decimal.Nil) as H.
  cbn [DecimalPos.Unsigned.of_lu] in H. change (Z.of_N 0) with 0 in H.
  rewrite <- H. change (Decimal.revapp (Pos.to_uint p) Decimal.Nil)
    with (Decimal.rev (Pos.to_uint p)).
  rewrite <- DecimalPos.Unsigned.of_uint_alt, DecimalPos.Unsigned.of_to. reflexivity.
Qed.

(** The first digit of the decimal text of a positive number is not 0. *)
Lemma to_uint_head (p : positive) :
  Pos.to_uint p <> Decimal.Nil /\ forall d', Pos.to_uint p <> Decimal.D0 d'.
Proof.
  split; [apply DecimalPos.Unsigned.to_uint_nonnil|]. intros d' E.
  pose proof (DecimalPos.Unsigned.to_of (Pos.to_uint p)) as H.
  rewrite DecimalPos.Unsigned.of_to in H. cbn [N.to_uint] in H.
  pose proof (DecimalPos.Unsigned.to_uint_nonzero p) as Hnz.
  unfold Decimal.unorm in H.
  destruct (Decimal.nzhead (Pos.to_uint p)) eqn:En; try congruence.
  exact (DecimalFacts.nzhead_nonzero _ _ En).
Qed.

Lemma text_digits (d : Decimal.uint) :
  Forall isDigit (bytes (NilEmpty.string_of_uint d)).
Proof.
  induction d; cbn; constructor; try assumption; unfold isDigit; vm_compute;
    split; discriminate.
Qed.

Lemma text_horner (d : Decimal.uint) : forall n : Z,
  horner n (bytes (NilEmpty.string_of_uint d)) = uint_val d n.
Proof.
  induction d; intros n; [reflexivity|..];
    cbn [uint_val]; rewrite <- IHd; unfold horner; cbn; f_equal; lia.
Qed.

Lemma text_head (d : Decimal.uint) :
  d <> Decimal.Nil -> (forall d', d <> Decimal.D0 d') ->
  exists c t, bytes (NilEmpty.string_of_uint d) = c :: t /\ code "0"%byte < code c.
Proof.
  intros Hnil H0. destruct d; try contradiction;
    try (eexists; eexists; split; [reflexivity|vm_compute; reflexivity]).
  exfalso. now apply (H0 d).
Qed.

Lemma horner_lower (l : list byte) : Forall isDigit l ->
  forall n : Z, 0 <= n -> n * 10 ^ len l <= horner n l.
Proof.
  induction 1 as [|c l Hc Hall IH]; intros n Hn.
  - unfold horner, len. simpl. lia.
  - unfold horner. cbn [fold_left]. fold (horner (n * 10 + (code c - code "0"%byte)) l).
    unfold isDigit in Hc.
    assert (H0 : 0 <= n * 10 + (code c - code "0"%byte)) by lia.
    specialize (IH _ H0).
    replace (len (c :: l)) with (len l + 1) by (unfold len; simpl length; lia).
    rewrite Z.pow_add_r by (unfold len; lia).
    assert (Hp : 0 <= 10 ^ len l) by (apply Z.pow_nonneg; lia).
    nia.
Qed.

(** The decimal text of a positive number below 2^63: digits only, not
    starting with 0, at most 19 of them, and denoting the number. *)
Lemma text_of_pos (p : positive) :
  Z.pos p <= 2 ^ 63 ->
  let l := bytes (NilEmpty.string_of_uint (Pos.to_uint p)) in
  strconv_Itoa (Z.pos p) = l /\ strconv_Itoa (Z.neg p) = "-"%byte :: l /\
  Forall isDigit l /\ decimal l = Z.pos p /\ l <> [] /\ (length l < 20)%nat.
Proof.
  intros Hp l. destruct (to_uint_head p) as [Hnil H0].
  assert (Hz : NilZero.string_of_uint (Pos.to_uint p) =
               NilEmpty.string_of_uint (Pos.to_uint p)).
  { unfold NilZero.string_of_uint. destruct (Pos.to_uint p); [contradiction|reflexivity..]. }
  assert (Hd : decimal l = Z.pos p).
  { unfold decimal, l. rewrite text_horner. apply uint_val_to_uint. }
  destruct (text_head _ Hnil H0) as (c & t & Hl & Hc). fold l in Hl.
  pose proof (text_digits (Pos.to_uint p)) as Hdig. fold l in Hdig.
  repeat apply conj.
  - unfold strconv_Itoa. cbn [Z.to_int NilZero.string_of_int]. now rewrite Hz.
  - unfold strconv_Itoa. cbn [Z.to_int NilZero.string_of_int]. now rewrite Hz.
  - exact Hdig.
  - exact Hd.
  - rewrite Hl. discriminate.
  - rewrite Hl in *. unfold decimal, horner in Hd. cbn [fold_left] in Hd.
    fold (horner (0 * 10 + (code c - code "0"%byte)) t) in Hd.
    pose proof (horner_lower t (Forall_inv_tail Hdig)
                  (0 * 10 + (code c - code "0"%byte)) ltac:(lia)) as Hlow.
    assert (Hpow : 10 ^ len t < 10 ^ 19).
    { assert (0 < 10 ^ len t) by (apply Z.pow_pos_nonneg; [lia|apply len_nonneg]).
      assert (2 ^ 63 < 10 ^ 19) by (vm_compute; reflexivity). nia. }
    apply Z.pow_lt_mono_r_iff in Hpow; [|lia|lia].
    unfold len in Hpow. simpl length. lia.
Qed.

Lemma digit_le9 (l : list byte) :
  Forall isDigit l -> Forall (fun c => code c <= code "9"%byte) l.
Proof. apply Forall_impl. unfold isDigit. intros c H. lia. Qed.

Lemma digit_hd_not_minus (l : list byte) :
  Forall isDigit l -> hd_error l <> Some "-"%byte.
Proof.
  intros H. destruct l as [|c l]; [discriminate|]. simpl. intros E. injection E as ->.
  apply Forall_inv in H. unfold isDigit in H. vm_compute in H. destruct H as [H _].
  now apply H.
Qed.

(** [Btoi] reads back what [strconv.Itoa] writes. *)
Lemma Btoi_strconv_Itoa (i : Z) :
  - 2 ^ 63 <= i < 2 ^ 63 -> Btoi (strconv_Itoa i) = Ok i.
Proof.
  intros Hi. destruct i as [|p|p].
  - reflexivity.
  - destruct (text_of_pos p ltac:(lia)) as (Hpos & _ & Hdig & Hdec & Hne & Hlen).
    rewrite Hpos. set (l := bytes (NilEmpty.string_of_uint (Pos.to_uint p))) in *.
    assert (H256 : (length l < 256)%nat) by lia.
    destruct (Btoi_decimal l H256 (digit_le9 l Hdig)) as [Hplain _].
    rewrite (Hplain (digit_hd_not_minus l Hdig)), Hdec, wrap_small by lia. reflexivity.
  - destruct (text_of_pos p ltac:(lia)) as (_ & Hneg & Hdig & Hdec & Hne & Hlen).
    rewrite Hneg. set (l := bytes (NilEmpty.string_of_uint (Pos.to_uint p))) in *.
    assert (H256 : (length ("-"%byte :: l) < 256)%nat) by (simpl length; lia).
    assert (Hle : Forall (fun c => code c <= code "9"%byte) ("-"%byte :: l)).
    { constructor; [vm_compute; discriminate|exact (digit_le9 l Hdig)]. }
    destruct (Btoi_decimal _ H256 Hle) as [_ Hminus].
    rewrite (Hminus l eq_refl Hne), Hdec, wrap_small by lia. reflexivity.
Qed.

(** The cache is transparent: [Itoa] returns the text of [strconv.Itoa]. *)
Lemma Itoa_strconv (i : Z) : Itoa i = Ok (strconv_Itoa i).
Proof.
  unfold Itoa. destruct (i <? 0) eqn:E0; [reflexivity|]. apply Z.ltb_ge in E0.
  assert (Hlen : len intBuffer = 10000).
  { unfold len, intBuffer. rewrite length_map, length_seq. reflexivity. }
  rewrite Hlen. destruct (i <? 10000) eqn:E1; [|reflexivity]. apply Z.ltb_lt in E1.
  rewrite <- (Z2Nat.id i) at 1 by lia. rewrite index_nth_error.
  unfold intBuffer. rewrite nth_error_map, nth_error_seq.
  assert (Hlt : Nat.ltb (Z.to_nat i) (Z.to_nat 10000) = true) by (apply Nat.ltb_lt; lia).
  rewrite Hlt. cbn [option_map]. rewrite Nat.add_0_l, Z2Nat.id by lia. reflexivity.
Qed.

(** X3.  For every 64-bit [i], [Itoa(i)] is the decimal text of [i], from
    the cache or not, and [Btoi] reads it back: [Btoi(Itoa(i)) = i]. *)
Theorem Itoa_Btoi_roundtrip (i : Z) :
  - 2 ^ 63 <= i < 2 ^ 63 ->
  Itoa i = Ok (strconv_Itoa i) /\ (b <- Itoa i ;; Btoi b) = Ok i.
Proof.
  intros Hi. split; [apply Itoa_strconv|].
  rewrite Itoa_strconv. cbn [bind]. now apply Btoi_strconv_Itoa.
Qed.

Lemma Itoa_Btoi_roundtrip_witness :
  (b <- Itoa 9999 ;; Btoi b) = Ok 9999 /\
  (b <- Itoa 10000 ;; Btoi b) = Ok 10000 /\
  (b <- Itoa (- 2 ^ 63) ;; Btoi b) = Ok (- 2 ^ 63).
Proof.
  repeat apply conj.
  - apply (Itoa_Btoi_roundtrip 9999). lia.
  - apply (Itoa_Btoi_roundtrip 10000). lia.
  - apply (Itoa_Btoi_roundtrip (- 2 ^ 63)). lia.
Defined.

(** ** Decoder: what is read and what is left *)

Lemma ReadBytes_app (delim : byte) (tail : list byte) : forall (r line rest : list byte),
  ReadBytes r delim = Ok (line, rest) ->
  ReadBytes (r ++ tail) delim = Ok (line, rest ++ tail).
Proof.
  induction r as [|c r IH]; intros line rest H; simpl in H; [discriminate|].
  simpl. destruct (Byte.eqb c delim).
  - injection H as <- <-. reflexivity.
  - bind_inv H. destruct a as [line' rest']. injection H as <- <-.
    rewrite (IH _ _ Hbind). reflexivity.
Qed.

Lemma readLine_app (r line rest tail : list byte) :
  readLine r = Ok (line, rest) -> readLine (r ++ tail) = Ok (line, rest ++ tail).
Proof.
  unfold readLine. intros H. bind_inv H. destruct a as [line' rest'].
  rewrite (ReadBytes_app _ tail _ _ _ Hbind). cbn [bind].
  destruct (len line' <? 2); [discriminate|]. bind_inv H. rewrite Hbind0. cbn [bind].
  destruct (negb (Byte.eqb a CR)); [discriminate|]. injection H as <- <-. reflexivity.
Qed.

Lemma ReadFull_app (r : list byte) (size : nat) (buf rest tail : list byte) :
  ReadFull r size = Ok (buf, rest) ->
  ReadFull (r ++ tail) size = Ok (buf, rest ++ tail).
Proof.
  unfold ReadFull. destruct (size <=? length r)%nat eqn:E; [|destruct r; discriminate].
  apply Nat.leb_le in E. intros H. injection H as <- <-.
  assert (E' : (size <=? length (r ++ tail))%nat = true)
    by (apply Nat.leb_le; rewrite length_app; lia).
  rewrite E', firstn_app, skipn_app.
  replace (size - length r)%nat with 0%nat by lia. simpl. now rewrite app_nil_r.
Qed.

Lemma ReadBulk_app (r : list byte) (size : Z) (raw0 raw rest tail : list byte) :
  ReadBulk r size raw0 = Ok (raw, rest) ->
  ReadBulk (r ++ tail) size raw0 = Ok (raw, rest ++ tail).
Proof.
  unfold ReadBulk. destruct (size <? 0).
  - intros H. injection H as <- <-. reflexivity.
  - intros H. bind_inv H. destruct a as [buf r1].
    rewrite (ReadFull_app _ _ _ _ tail Hbind). cbn [bind].
    bind_inv H. destruct a as [line r2].
    rewrite (readLine_app _ _ _ tail Hbind0). cbn [bind].
    destruct (negb (len line =? 2)); [discriminate|]. injection H as <- <-. reflexivity.
Qed.

Lemma Parse_multi_app (parse : list byte -> res (Resp * list byte)) (tail : list byte) :
  (forall m r rest, parse m = Ok (r, rest) -> parse (m ++ tail) = Ok (r, rest ++ tail)) ->
  forall (k : nat) (r1 : list byte) (multi : list Resp) (rest : list byte),
    Parse_multi parse k r1 = Ok (multi, rest) ->
    Parse_multi parse k (r1 ++ tail) = Ok (multi, rest ++ tail).
Proof.
  intros Hp. induction k as [|k IH]; intros r1 multi rest H; simpl in H.
  - injection H as <- <-. reflexivity.
  - bind_inv H. destruct a as [rp r2]. bind_inv H. destruct a as [multi' r3].
    injection H as <- <-. simpl. rewrite (Hp _ _ _ Hbind). cbn [bind].
    rewrite (IH _ _ _ Hbind0). reflexivity.
Qed.

(** Bytes that follow a value which [Parse] reads do not change the value:
    they are left unread. *)
Lemma Parse_app (fuel : nat) (tail : list byte) :
  forall (m : list byte) (r : Resp) (rest : list byte),
    Parse fuel m = Ok (r, rest) -> Parse fuel (m ++ tail) = Ok (r, rest ++ tail).
Proof.
  induction fuel as [|fuel IH]; intros m r rest H; [discriminate|].
  destruct (Parse_inv _ _ _ _ H) as (line & r1 & c & Hline & Hc & Hbr).
  cbn [Parse]. rewrite (readLine_app _ _ _ tail Hline). cbn [bind]. rewrite Hc. cbn [bind].
  destruct Hbr as [-> -> -> | -> -> -> | -> -> -> | b size raw -> Hb Hsz Hrb ->
                  | b i multi -> Hb Hi Hpos Hm -> | b i -> Hb Hi Hneg -> ->
                  | multi Hstar Hlet Hloop -> ->]; try reflexivity.
  - cbn. rewrite Hb. cbn [bind]. rewrite Hsz. cbn [bind].
    rewrite (ReadBulk_app _ _ _ _ _ tail Hrb). reflexivity.
  - cbn. rewrite Hb. cbn [bind]. rewrite Hi. cbn [bind].
    assert (Hle : (0 <=? i) = true) by (now apply Z.leb_le). rewrite Hle.
    rewrite (Parse_multi_app (Parse fuel) tail (IH) _ _ _ _ Hm). reflexivity.
  - cbn. rewrite Hb. cbn [bind]. rewrite Hi. cbn [bind].
    assert (Hle : (0 <=? i) = false) by (now apply Z.leb_gt). rewrite Hle. reflexivity.
  - assert (E1 : Byte.eqb c "-"%byte = false).
    { destruct (Byte.eqb c "-"%byte) eqn:E; [|reflexivity].
      apply Byte.byte_dec_bl in E. subst c. discriminate Hlet. }
    assert (E2 : Byte.eqb c "+"%byte = false).
    { destruct (Byte.eqb c "+"%byte) eqn:E; [|reflexivity].
      apply Byte.byte_dec_bl in E. subst c. discriminate Hlet. }
    assert (E3 : Byte.eqb c ":"%byte = false).
    { destruct (Byte.eqb c ":"%byte) eqn:E; [|reflexivity].
      apply Byte.byte_dec_bl in E. subst c. discriminate Hlet. }
    assert (E4 : Byte.eqb c "$"%byte = false).
    { destruct (Byte.eqb c "$"%byte) eqn:E; [|reflexivity].
      apply Byte.byte_dec_bl in E. subst c. discriminate Hlet. }
    assert (E5 : Byte.eqb c "*"%byte = false).
    { destruct (Byte.eqb c "*"%byte) eqn:E; [|reflexivity].
      apply Byte.byte_dec_bl in E. contradiction. }
    rewrite E1, E2, E3, E4, E5, Hlet. cbn [negb]. rewrite Hloop. reflexivity.
Qed.

(** X4.  Pipelining: when [decode] reads a value from [m] and leaves [rest],
    it reads the same value from [m] followed by any further bytes, and leaves
    [rest] followed by those bytes. *)
Theorem decode_app (m tail : list byte) (r : Resp) (rest : list byte) :
  decode m = Ok (r, rest) -> decode (m ++ tail) = Ok (r, rest ++ tail).
Proof.
  intros H. unfold decode in *.
  rewrite <- (Parse_app _ tail _ _ _ H).
  apply Parse_fuel_mono.
  - rewrite length_app. lia.
  - rewrite (Parse_app _ tail _ _ _ H). discriminate.
Qed.

Lemma decode_app_witness :
  exists r,
    decode (wire ["*2"; "$3"; "GET"; "$1"; "k"]) = Ok (r, []) /\
    decode (wire ["*2"; "$3"; "GET"; "$1"; "k"] ++ wire ["+OK"]) = Ok (r, wire ["+OK"]).
Proof.
  exists_decoded. split; [vm_compute; reflexivity|].
  apply (decode_app (wire ["*2"; "$3"; "GET"; "$1"; "k"]) (wire ["+OK"]) _ []).
  vm_compute. reflexivity.
Defined.

(** X5.  [Parse] terminates: on an input of [n] bytes its calls never nest
    deeper than [n + 1], so with any fuel above [n] it answers (a value, an
    error or a panic) what [decode] answers. *)
Theorem Parse_terminates (fuel : nat) (m : list byte) :
  (length m < fuel)%nat -> Parse fuel m = decode m /\ decode m <> Timeout.
Proof.
  intros Hlen. split.
  - apply Parse_fuel_mono; [lia|]. apply Parse_fuel. lia.
  - apply Parse_fuel. lia.
Qed.

Lemma Parse_terminates_witness :
  Parse 1000 (wire ["*2"; "*1"; ":1"; "$3"; "abc"]) =
  decode (wire ["*2"; "*1"; ":1"; "$3"; "abc"]) /\
  decode (wire ["*2"; "*1"; ":1"; "$3"; "abc"]) <> Timeout.
Proof.
  apply Parse_terminates. vm_compute. lia.
Defined.

(** What [Parse] has read is a prefix of at least three bytes. *)
Lemma Parse_multi_reads (parse : list byte -> res (Resp * list byte)) :
  (forall m r rest, parse m = Ok (r, rest) -> exists used, m = used ++ rest) ->
  forall (k : nat) (r1 : list byte) (multi : list Resp) (rest : list byte),
    Parse_multi parse k r1 = Ok (multi, rest) -> exists used, r1 = used ++ rest.
Proof.
  intros Hp. induction k as [|k IH]; intros r1 multi rest H; simpl in H.
  - injection H as <- <-. now exists [].
  - bind_inv H. destruct a as [rp r2]. bind_inv H. destruct a as [multi' r3].
    injection H as <- <-. destruct (Hp _ _ _ Hbind) as (u1 & ->).
    destruct (IH _ _ _ Hbind0) as (u2 & ->). exists (u1 ++ u2). now rewrite app_assoc.
Qed.

Lemma Parse_reads (fuel : nat) :
  forall (m : list byte) (r : Resp) (rest : list byte),
    Parse fuel m = Ok (r, rest) ->
    exists used, m = used ++ rest /\ (3 <= length used)%nat.
Proof.
  induction fuel as [|fuel IH]; intros m r rest H; [discriminate|].
  destruct (Parse_inv _ _ _ _ H) as (line & r1 & c & Hline & Hc & Hbr).
  destruct (readLine_inv _ _ _ Hline) as (pre & -> & _ & ->).
  assert (Hpre : (1 <= length pre)%nat).
  { destruct pre; [|simpl; lia]. exfalso. simpl in Hc. unfold index in Hc. simpl in Hc.
    injection Hc as <-.
    destruct Hbr as [E _ _ | E _ _ | E _ _ | ? ? ? E _ _ _ _ | ? ? ? E _ _ _ _ _
                    | ? ? E _ _ _ _ _ | ? _ E _ _ _]; discriminate E. }
  assert (Hline3 : (3 <= length (pre ++ [CR; LF]))%nat) by (rewrite length_app; simpl; lia).
  destruct Hbr as [_ _ -> | _ _ -> | _ _ -> | b size raw _ _ _ Hrb _
                  | b i multi _ _ _ _ Hm _ | b i _ _ _ _ _ -> | multi _ _ _ _ ->];
    try (eexists; split; [reflexivity|assumption]).
  - destruct (ReadBulk_inv _ _ _ _ _ Hrb) as [(_ & _ & ->) | (_ & buf & _ & _ & ->)].
    + eexists; split; [reflexivity|assumption].
    + exists ((pre ++ [CR; LF]) ++ buf ++ NEW_LINE). split.
      * rewrite <- !app_assoc. reflexivity.
      * rewrite length_app. lia.
  - assert (Hu : exists used, r1 = used ++ rest).
    { apply (Parse_multi_reads (Parse fuel)) with (k := Z.to_nat i) (multi := multi);
        [|assumption].
      intros m' r' rest' Hp. destruct (IH _ _ _ Hp) as (u & -> & _). now exists u. }
    destruct Hu as (u & ->). exists ((pre ++ [CR; LF]) ++ u). split.
    + rewrite <- !app_assoc. reflexivity.
    + rewrite length_app. lia.
Qed.

(** X6.  What [decode] leaves unread is a suffix of its input, and it never
    returns a value without having read at least three bytes: the shortest
    values are a one-byte header line such as [+\r\n] and a one-letter telnet
    command. *)
Theorem decode_reads_prefix (m : list byte) (r : Resp) (rest : list byte) :
  decode m = Ok (r, rest) ->
  exists used, m = used ++ rest /\ (3 <= length used)%nat.
Proof. apply Parse_reads. Qed.

Lemma decode_reads_prefix_witness :
  exists r used,
    decode (wire ["+"; ":7"]) = Ok (r, wire [":7"]) /\
    wire ["+"; ":7"] = used ++ wire [":7"] /\ (3 <= length used)%nat.
Proof.
  destruct (decode_reads_prefix (wire ["+"; ":7"])
              (mkResp SimpleString (wire ["+"]) []) (wire [":7"]) eq_refl)
    as (used & Hm & Hlen).
  exists (mkResp SimpleString (wire ["+"]) []), used. repeat apply conj.
  - reflexivity.
  - exact Hm.
  - exact Hlen.
Defined.

(** X7.  An array decoded from multi-bulk form has exactly as many children
    as the count its header declares (as [Btoi] reads it), and none when that
    count is negative. *)
Theorem decode_array_count (m : list byte) (r : Resp) (rest : list byte) :
  decode m = Ok (r, rest) -> index m 0 = Ok "*"%byte ->
  exists n, declaredCount r = Ok n /\
            (0 <= n -> len (Multi r) = n) /\ (n < 0 -> Multi r = []).
Proof. apply Parse_array_count. Qed.

Lemma decode_array_count_witness :
  exists r,
    decode (wire ["*2"; ":1"; "*-1"]) = Ok (r, []) /\
    exists n, declaredCount r = Ok n /\
              (0 <= n -> len (Multi r) = n) /\ (n < 0 -> Multi r = []).
Proof.
  exists_decoded. split; [vm_compute; reflexivity|].
  apply (decode_array_count (wire ["*2"; ":1"; "*-1"]) _ []); vm_compute; reflexivity.
Defined.

(** ** Line reader: the three outcomes *)

Lemma ReadBytes_found (delim : byte) (pre rest : list byte) :
  ~ In delim pre -> ReadBytes (pre ++ delim :: rest) delim = Ok (pre ++ [delim], rest).
Proof.
  induction pre as [|c pre IH]; intros Hnot; simpl.
  - now rewrite (Byte.byte_dec_lb eq_refl).
  - destruct (Byte.eqb c delim) eqn:E.
    + apply Byte.byte_dec_bl in E. exfalso. apply Hnot. now left.
    + rewrite IH by (intros Hin; apply Hnot; now right). reflexivity.
Qed.

Lemma ReadBytes_EOF (delim : byte) (r : list byte) :
  ~ In delim r -> ReadBytes r delim = Err EOF.
Proof.
  induction r as [|c r IH]; intros Hnot; simpl; [reflexivity|].
  destruct (Byte.eqb c delim) eqn:E.
  - apply Byte.byte_dec_bl in E. exfalso. apply Hnot. now left.
  - rewrite IH by (intros Hin; apply Hnot; now right). reflexivity.
Qed.

Lemma readLine_complete (pre rest : list byte) :
  ~ In LF pre -> readLine ((pre ++ [CR; LF]) ++ rest) = Ok (pre ++ [CR; LF], rest).
Proof.
  intros Hnot. unfold readLine.
  replace ((pre ++ [CR; LF]) ++ rest) with ((pre ++ [CR]) ++ LF :: rest)
    by (rewrite <- !app_assoc; reflexivity).
  rewrite ReadBytes_found by now apply In_LF_app_CR. cbn [bind].
  assert (H2 : (len ((pre ++ [CR]) ++ [LF]) <? 2) = false) by (apply Z.ltb_ge; len_lia).
  rewrite H2.
  replace (len ((pre ++ [CR]) ++ [LF]) - 2) with (len pre + 0) by len_lia.
  rewrite <- app_assoc, index_app_r by lia. cbn. reflexivity.
Qed.

Lemma readLine_no_CR (pre rest : list byte) :
  ~ In LF pre -> (forall p, pre <> p ++ [CR]) ->
  readLine (pre ++ LF :: rest) = Err InvalidPacket.
Proof.
  intros Hnot Hcr. unfold readLine.
  rewrite ReadBytes_found by assumption. cbn [bind].
  destruct (len (pre ++ [LF]) <? 2) eqn:E2; [reflexivity|]. apply Z.ltb_ge in E2.
  destruct (rev pre) as [|x pre'] eqn:Er.
  - apply (f_equal (@rev byte)) in Er. rewrite rev_involutive in Er. subst pre.
    unfold len in E2. simpl in E2. lia.
  - apply (f_equal (@rev byte)) in Er. rewrite rev_involutive in Er. simpl in Er.
    subst pre. replace (len ((rev pre' ++ [x]) ++ [LF]) - 2) with (len (rev pre') + 0)
      by len_lia.
    rewrite <- app_assoc, index_app_r by lia. cbn.
    destruct (Byte.eqb x CR) eqn:E; [|reflexivity].
    apply Byte.byte_dec_bl in E. subst x. exfalso. now apply (Hcr (rev pre')).
Qed.

(** X8.  [readLine] has three outcomes, decided by the first LF of the
    input: io.EOF when there is none; "invalid redis packet" when the byte
    before it is not CR (or there is no byte before it); otherwise the line up
    to and including that LF, with the bytes after it left unread. *)
Theorem readLine_outcomes (r : list byte) :
  (~ In LF r -> readLine r = Err EOF) /\
  (forall pre rest, ~ In LF pre -> r = pre ++ LF :: rest ->
     (forall p, pre <> p ++ [CR]) -> readLine r = Err InvalidPacket) /\
  (forall pre rest, ~ In LF pre -> r = (pre ++ [CR; LF]) ++ rest ->
     readLine r = Ok (pre ++ [CR; LF], rest)) /\
  (forall line rest, readLine r = Ok (line, rest) ->
     exists pre, ~ In LF pre /\ line = pre ++ [CR; LF] /\ r = line ++ rest).
Proof.
  repeat apply conj.
  - intros Hnot. unfold readLine. now rewrite ReadBytes_EOF.
  - intros pre rest Hnot -> Hcr. now apply readLine_no_CR.
  - intros pre rest Hnot ->. now apply readLine_complete.
  - intros line rest H. destruct (readLine_inv _ _ _ H) as (pre & Hl & Hnot & Hr). eauto.
Qed.

(** ** Decoder: bulk strings and arrays from their parts *)

Lemma In_LF_marker (c : byte) (pre : list byte) :
  c <> LF -> ~ In LF pre -> ~ In LF (c :: pre).
Proof. intros Hc Hnot [H|H]; [now apply Hc|contradiction]. Qed.

(** Decoding a bulk string from its header line, its bytes and the
    terminator. *)
Lemma Parse_bulk_parts (fuel : nat) (pre : list byte) (size : Z) (buf rest : list byte) :
  ~ In LF pre -> Btoi pre = Ok size -> 0 <= size -> len buf = size ->
  Parse (S fuel) (("$"%byte :: pre) ++ NEW_LINE ++ buf ++ NEW_LINE ++ rest) =
  Ok (mkResp BulkResp (["$"%byte] ++ (pre ++ NEW_LINE ++ buf) ++ NEW_LINE) [], rest).
Proof.
  intros Hnot Hsz Hpos Hlen.
  assert (Hline : readLine (("$"%byte :: pre) ++ NEW_LINE ++ buf ++ NEW_LINE ++ rest) =
                  Ok (("$"%byte :: pre) ++ NEW_LINE, buf ++ NEW_LINE ++ rest)).
  { rewrite app_assoc. apply readLine_complete. apply In_LF_marker; [discriminate|assumption]. }
  destruct (bulk_header _ _ _ Hline eq_refl) as (pre' & _ & Hl & Hsl & _).
  assert (pre' = pre) as ->.
  { simpl in Hl. injection Hl as Hl. now apply app_inv_tail in Hl. }
  cbn [Parse]. rewrite Hline. cbn [bind].
  change (index (("$"%byte :: pre) ++ NEW_LINE) 0) with (@Ok byte "$"%byte). cbn [bind].
  change (Byte.eqb "$"%byte "-"%byte) with false.
  change (Byte.eqb "$"%byte "+"%byte) with false.
  change (Byte.eqb "$"%byte ":"%byte) with false.
  change (Byte.eqb "$"%byte "$"%byte) with true. cbv iota.
  rewrite Hsl. cbn [bind]. rewrite Hsz. cbn [bind].
  unfold ReadBulk.
  assert (Hneg : (size <? 0) = false) by (now apply Z.ltb_ge). rewrite Hneg.
  assert (Hfull : ReadFull (buf ++ NEW_LINE ++ rest) (Z.to_nat size) = Ok (buf, NEW_LINE ++ rest)).
  { unfold ReadFull.
    assert (Hl' : Z.to_nat size = length buf) by (unfold len in Hlen; lia).
    rewrite Hl'.
    assert (E : (length buf <=? length (buf ++ NEW_LINE ++ rest))%nat = true)
      by (apply Nat.leb_le; rewrite length_app; lia).
    rewrite E, firstn_app, firstn_all, skipn_app, skipn_all, Nat.sub_diag. simpl.
    now rewrite app_nil_r. }
  rewrite Hfull. cbn [bind].
  change (NEW_LINE ++ rest) with (([] ++ [CR; LF]) ++ rest).
  rewrite readLine_complete by (intros []). cbn [bind]. cbn [app len length Z.of_nat negb Z.eqb Pos.eqb Pos.of_succ_nat Pos.succ].
  rewrite <- !app_assoc. reflexivity.
Qed.

(** X9.  Bulk strings are binary-safe.  A header [$<text>\r\n] whose text
    [Btoi] reads as [n >= 0], followed by any [n] bytes (CR and LF among
    them) and CR LF, decodes to a Bulk node that holds these bytes as its
    payload and leaves what follows unread; a header that [Btoi] reads as a
    negative number decodes to the null bulk, and nothing after the header
    line is read. *)
Theorem decode_bulk (pre : list byte) (size : Z) (buf rest : list byte) :
  ~ In LF pre -> Btoi pre = Ok size ->
  (0 <= size -> len buf = size ->
   exists c,
     decode (("$"%byte :: pre) ++ NEW_LINE ++ buf ++ NEW_LINE ++ rest) = Ok (c, rest) /\
     Type_ c = BulkResp /\
     Raw c = ("$"%byte :: pre) ++ NEW_LINE ++ buf ++ NEW_LINE /\
     isBulkString c = true /\ bulkPayload c = buf) /\
  (size < 0 ->
   decode (("$"%byte :: pre) ++ NEW_LINE ++ rest) =
   Ok (mkResp BulkResp (("$"%byte :: pre) ++ NEW_LINE) [], rest)).
Proof.
  intros Hnot Hsz. split.
  - intros Hpos Hlen.
    exists (mkResp BulkResp (["$"%byte] ++ (pre ++ NEW_LINE ++ buf) ++ NEW_LINE) []).
    assert (Hof : BulkOf pre size buf
                    (mkResp BulkResp (["$"%byte] ++ (pre ++ NEW_LINE ++ buf) ++ NEW_LINE) [])).
    { unfold BulkOf. cbn [Raw]. repeat apply conj; try assumption; try reflexivity.
      unfold len in Hlen. lia. }
    destruct (BulkOf_extract _ _ _ _ Hof) as (_ & _ & _ & Hpay).
    repeat apply conj.
    + apply Parse_bulk_parts with (size := size); assumption.
    + reflexivity.
    + cbn [Raw]. rewrite <- !app_assoc. reflexivity.
    + unfold isBulkString. cbn [Type_].
      unfold bulkSize.
      assert (Hidx : IndexByte (["$"%byte] ++ (pre ++ NEW_LINE ++ buf) ++ NEW_LINE) LF
                     = len pre + 2).
      { replace (["$"%byte] ++ (pre ++ NEW_LINE ++ buf) ++ NEW_LINE)
          with ((("$"%byte :: pre) ++ [CR]) ++ LF :: (buf ++ NEW_LINE))
          by (simpl; rewrite <- !app_assoc; reflexivity).
        rewrite IndexByte_app; [len_lia|].
        apply (In_LF_app_CR ("$"%byte :: pre)).
        apply In_LF_marker; [discriminate|assumption]. }
      cbn [Raw]. rewrite Hidx.
      assert (Hs : slice (["$"%byte] ++ (pre ++ NEW_LINE ++ buf) ++ NEW_LINE) 1
                     (len pre + 2 - 1) = Ok pre).
      { rewrite <- !app_assoc. apply slice_mid; [reflexivity|len_lia]. }
      rewrite Hs. cbn [bind]. rewrite Hsz. now apply Z.leb_le.
    + exact Hpay.
  - intros Hneg. unfold decode.
    assert (Hline : readLine (("$"%byte :: pre) ++ NEW_LINE ++ rest) =
                    Ok (("$"%byte :: pre) ++ NEW_LINE, rest)).
    { rewrite app_assoc. apply readLine_complete.
      apply In_LF_marker; [discriminate|assumption]. }
    destruct (bulk_header _ _ _ Hline eq_refl) as (pre' & _ & Hl & Hsl & _).
    assert (pre' = pre) as ->.
    { simpl in Hl. injection Hl as Hl. now apply app_inv_tail in Hl. }
    cbn [Parse]. rewrite Hline. cbn [bind].
    change (index (("$"%byte :: pre) ++ NEW_LINE) 0) with (@Ok byte "$"%byte). cbn [bind].
    change (Byte.eqb "$"%byte "-"%byte) with false.
    change (Byte.eqb "$"%byte "+"%byte) with false.
    change (Byte.eqb "$"%byte ":"%byte) with false.
    change (Byte.eqb "$"%byte "$"%byte) with true. cbv iota.
    rewrite Hsl. cbn [bind]. rewrite Hsz. cbn [bind]. unfold ReadBulk.
    assert (Hlt : (size <? 0) = true) by (now apply Z.ltb_lt). rewrite Hlt. reflexivity.
Qed.

Lemma decode_bulk_witness :
  let payload := bytes "a" ++ NEW_LINE ++ bytes "b" in
  (exists c,
     decode (wire ["$4"] ++ payload ++ NEW_LINE ++ wire ["+OK"]) = Ok (c, wire ["+OK"]) /\
     Type_ c = BulkResp /\
     Raw c = wire ["$4"] ++ payload ++ NEW_LINE /\
     isBulkString c = true /\ bulkPayload c = payload) /\
  decode (wire ["$-1"; "+OK"]) = Ok (mkResp BulkResp (wire ["$-1"]) [], wire ["+OK"]).
Proof.
  intros payload. split.
  - apply (proj1 (decode_bulk (bytes "4") 4 payload (wire ["+OK"])
                    ltac:(vm_compute; intuition discriminate) eq_refl));
      [lia|reflexivity].
  - apply (proj2 (decode_bulk (bytes "-1") (-1) [] (wire ["+OK"])
                    ltac:(vm_compute; intuition discriminate) eq_refl)).
    lia.
Defined.


(** [Parse] after a header line that starts with ['*']. *)
Lemma Parse_array_header (fuel : nat) (pre : list byte) (n : Z) (after : list byte) :
  ~ In LF pre -> Btoi pre = Ok n ->
  Parse (S fuel) (("*"%byte :: pre) ++ NEW_LINE ++ after) =
  if 0 <=? n then
    '(multi, r) <- Parse_multi (Parse fuel) (Z.to_nat n) after ;;
    Ok (mkResp MultiResp (("*"%byte :: pre) ++ NEW_LINE) multi, r)
  else Ok (mkResp MultiResp (("*"%byte :: pre) ++ NEW_LINE) [], after).
Proof.
  intros Hnot Hn.
  assert (Hline : readLine (("*"%byte :: pre) ++ NEW_LINE ++ after) =
                  Ok (("*"%byte :: pre) ++ NEW_LINE, after)).
  { rewrite app_assoc. apply readLine_complete. apply In_LF_marker; [discriminate|assumption]. }
  assert (Hsl : slice (("*"%byte :: pre) ++ NEW_LINE) 1 (len (("*"%byte :: pre) ++ NEW_LINE) - 2)
                = Ok pre).
  { change (("*"%byte :: pre) ++ NEW_LINE) with (["*"%byte] ++ pre ++ NEW_LINE).
    apply slice_mid; [reflexivity|len_lia]. }
  cbn [Parse]. rewrite Hline. cbn [bind].
  change (index (("*"%byte :: pre) ++ NEW_LINE) 0) with (@Ok byte "*"%byte). cbn [bind].
  change (Byte.eqb "*"%byte "-"%byte) with false.
  change (Byte.eqb "*"%byte "+"%byte) with false.
  change (Byte.eqb "*"%byte ":"%byte) with false.
  change (Byte.eqb "*"%byte "$"%byte) with false.
  change (Byte.eqb "*"%byte "*"%byte) with true. cbv iota.
  rewrite Hsl. cbn [bind]. rewrite Hn. reflexivity.
Qed.




Lemma Parse_multi_concat (fuel : nat) (rest : list byte) :
  forall (ms : list (list byte)) (rs : list Resp),
    Forall2 (fun m r => Parse fuel m = Ok (r, [])) ms rs ->
    Parse_multi (Parse fuel) (length rs) (concat ms ++ rest) = Ok (rs, rest).
Proof.
  induction 1 as [|m r ms rs Hm Hall IH]; [reflexivity|].
  simpl. rewrite <- app_assoc.
  rewrite (Parse_app fuel (concat ms ++ rest) m r [] Hm). cbn [bind app].
  rewrite IH. reflexivity.
Qed.

Lemma decode_Parse_Forall2 (fuel : nat) :
  forall (ms : list (list byte)) (rs : list Resp),
    Forall2 (fun m r => decode m = Ok (r, [])) ms rs ->
    (length (concat ms) < fuel)%nat ->
    Forall2 (fun m r => Parse fuel m = Ok (r, [])) ms rs.
Proof.
  induction 1 as [|m r ms rs Hm Hall IH]; intros Hlen; constructor.
  - simpl in Hlen. rewrite length_app in Hlen. unfold decode in Hm.
    rewrite <- Hm. apply Parse_fuel_mono; [lia|]. rewrite Hm. discriminate.
  - apply IH. simpl in Hlen. rewrite length_app in Hlen. lia.
Qed.

(** X11.  Arrays compose.  A header [*<text>\r\n] whose text [Btoi] reads
    as [n >= 0], followed by [n] messages that each decode on their own,
    decodes to the array of their values, in order, and leaves what follows
    unread; a header read as a negative number decodes to the null array. *)
Theorem decode_array (pre : list byte) (n : Z) (rest : list byte) :
  ~ In LF pre -> Btoi pre = Ok n ->
  (forall (ms : list (list byte)) (rs : list Resp),
     Forall2 (fun m r => decode m = Ok (r, [])) ms rs -> len rs = n ->
     decode (("*"%byte :: pre) ++ NEW_LINE ++ concat ms ++ rest) =
     Ok (mkResp MultiResp (("*"%byte :: pre) ++ NEW_LINE) rs, rest)) /\
  (n < 0 ->
   decode (("*"%byte :: pre) ++ NEW_LINE ++ rest) =
   Ok (mkResp MultiResp (("*"%byte :: pre) ++ NEW_LINE) [], rest)).
Proof.
  intros Hnot Hn. split.
  - intros ms rs Hall Hlen. unfold decode.
    rewrite (Parse_array_header _ pre n _ Hnot Hn).
    assert (Hle : (0 <=? n) = true) by (apply Z.leb_le; unfold len in Hlen; lia).
    rewrite Hle.
    replace (Z.to_nat n) with (length rs) by (unfold len in Hlen; lia).
    rewrite Parse_multi_concat; [reflexivity|].
    apply decode_Parse_Forall2; [assumption|].
    rewrite !length_app. simpl. lia.
  - intros Hneg. unfold decode. rewrite (Parse_array_header _ pre n _ Hnot Hn).
    assert (Hle : (0 <=? n) = false) by (now apply Z.leb_gt). rewrite Hle. reflexivity.
Qed.

Lemma decode_array_witness :
  decode (wire ["*2"] ++ concat [wire ["$3"; "GET"]; wire ["*1"; ":5"]] ++ wire ["+OK"]) =
  Ok (mkResp MultiResp (wire ["*2"])
        [mkResp BulkResp (wire ["$3"; "GET"]) [];
         mkResp MultiResp (wire ["*1"]) [mkResp IntegerResp (wire [":5"]) []]],
      wire ["+OK"]).
Proof.
  apply (proj1 (decode_array (bytes "2") 2 (wire ["+OK"])
                  ltac:(vm_compute; intuition discriminate) eq_refl)).
  - repeat constructor.
  - reflexivity.
Defined.

(** ** Decoded values are safe to serialize and to extract keys from *)

Lemma Parse_telnet_loop_Forall (P : Resp -> Prop) :
  (forall str, P (mkResp BulkResp
                    (bytes "$" ++ strconv_Itoa (len str) ++ NEW_LINE ++ str ++ NEW_LINE) [])) ->
  forall (strs : list (list byte)) (acc multi : list Resp),
    Forall P acc -> Parse_telnet_loop strs acc = Ok multi -> Forall P multi.
Proof.
  intros HP. induction strs as [|s strs IH]; intros acc multi Hacc H; simpl in H.
  - injection H as <-. exact Hacc.
  - destruct (0 <? len (TrimSpace s)).
    + unfold Marshal in H. refine (IH _ _ _ H). apply Forall_app.
      split; [exact Hacc|]. constructor; [apply HP|constructor].
    + exact (IH _ _ Hacc H).
Qed.

(** Every node that [Parse] returns, and each of its children, holds at
    least three bytes in [Raw]. *)
Lemma Parse_raw_len (fuel : nat) :
  forall (m : list byte) (r : Resp) (rest : list byte),
    Parse fuel m = Ok (r, rest) ->
    3 <= len (Raw r) /\ Forall (fun c => 3 <= len (Raw c)) (Multi r).
Proof.
  induction fuel as [|fuel IH]; intros m r rest H; [discriminate|].
  destruct (Parse_inv _ _ _ _ H) as (line & r1 & c & Hline & Hc & Hbr).
  destruct (readLine_inv _ _ _ Hline) as (pre & Hl & _ & _).
  assert (Hline3 : 3 <= len line).
  { subst line. destruct pre; [|len_lia]. exfalso. unfold index in Hc. simpl in Hc.
    injection Hc as <-.
    destruct Hbr as [E _ _ | E _ _ | E _ _ | ? ? ? E _ _ _ _ | ? ? ? E _ _ _ _ _
                    | ? ? E _ _ _ _ _ | ? _ E _ _ _]; discriminate E. }
  destruct Hbr as [_ -> _ | _ -> _ | _ -> _ | b size raw _ _ _ Hrb ->
                  | b i multi _ _ _ _ Hm -> | b i _ _ _ _ -> _ | multi _ _ Hloop -> _];
    cbn [Raw Multi]; try (split; [assumption|constructor]).
  - split; [|constructor].
    destruct (ReadBulk_inv _ _ _ _ _ Hrb) as [(_ & -> & _) | (_ & buf & _ & -> & _)];
      [assumption|]. rewrite len_app. pose proof (len_nonneg (buf ++ NEW_LINE)). lia.
  - split; [assumption|]. apply Parse_multi_Forall in Hm.
    rewrite Forall_forall in *. intros c' Hin.
    destruct (Hm _ Hin) as (m' & rest' & Hp). exact (proj1 (IH _ _ _ Hp)).
  - split; [len_lia|].
    apply (Parse_telnet_loop_Forall (fun c => 3 <= len (Raw c))) with (3 := Hloop);
      [|constructor].
    intros str. cbn [Raw]. len_lia.
Qed.

Lemma IndexByte_lt (c : byte) (b : list byte) : -1 <= IndexByte b c < len b.
Proof.
  induction b as [|x b IH]; simpl; [unfold len; simpl; lia|].
  destruct (Byte.eqb x c); [len_lia|].
  destruct (IndexByte b c <? 0) eqn:E; [len_lia|]. apply Z.ltb_ge in E. len_lia.
Qed.

Lemma raw2Bulk_ok (c : Resp) : 3 <= len (Raw c) -> exists b, raw2Bulk c = Ok b.
Proof.
  intros H. unfold raw2Bulk, slice.
  assert (E : ((0 <=? 1) && (1 <=? len (Raw c) - 2) && (len (Raw c) - 2 <=? len (Raw c)))
              = true).
  { rewrite !andb_true_iff. repeat split; apply Z.leb_le; lia. }
  rewrite E. eauto.
Qed.

Lemma sliceFrom_ok {A : Type} (b : list A) (lo : Z) :
  0 <= lo <= len b -> exists t, sliceFrom b lo = Ok t.
Proof.
  intros H. unfold sliceFrom, slice.
  assert (E : ((0 <=? lo) && (lo <=? len b) && (len b <=? len b)) = true).
  { rewrite !andb_true_iff. repeat split; apply Z.leb_le; lia. }
  rewrite E. eauto.
Qed.

(** The two steps of the payload extraction do not panic on a node of at
    least three bytes: they return a payload or fail with "invalid resp". *)
Lemma extract_ok (c : Resp) :
  3 <= len (Raw c) ->
  exists b, raw2Bulk c = Ok b /\
            ((IndexByte b LF <? 0) = true \/
             (IndexByte b LF <? 0) = false /\
             exists k, sliceFrom b (IndexByte b LF + 1) = Ok k).
Proof.
  intros H. destruct (raw2Bulk_ok c H) as [b Hb]. exists b. split; [exact Hb|].
  destruct (IndexByte b LF <? 0) eqn:E; [now left|]. right. split; [reflexivity|].
  apply Z.ltb_ge in E. pose proof (IndexByte_lt LF b). apply sliceFrom_ok. lia.
Qed.

Lemma Op_answers (r : Resp) :
  Forall (fun c => 3 <= len (Raw c)) (Multi r) -> answers (Op r).
Proof.
  intros Hall. unfold Op, answers. destruct (Multi r) as [|m0 ms]; [right; left; reflexivity|].
  assert (E : (0 <? len (m0 :: ms)) = true) by (apply Z.ltb_lt; len_lia).
  rewrite E. change (index (m0 :: ms) 0) with (Ok m0). cbn [bind].
  destruct (extract_ok m0 (Forall_inv Hall)) as (b & Hb & [Hneg|[Hpos [k Hk]]]);
    rewrite Hb; cbn [bind]; rewrite ?Hneg, ?Hpos; [right; left; reflexivity|].
  left. eauto.
Qed.

Lemma defaultGetKeys_loop_answers (vs : list Resp) : forall keys,
  Forall (fun c => 3 <= len (Raw c)) vs -> answers (defaultGetKeys_loop vs keys).
Proof.
  induction vs as [|v vs IH]; intros keys Hall; simpl.
  - left. eauto.
  - destruct (extract_ok v (Forall_inv Hall)) as (b & Hb & [Hneg|[Hpos [k Hk]]]);
      rewrite Hb; cbn [bind]; rewrite ?Hneg, ?Hpos; [right; left; reflexivity|].
    rewrite Hk. cbn [bind]. apply IH. exact (Forall_inv_tail Hall).
Qed.

Lemma thridAsKey_loop_answers (vs : list Resp) : forall keys numKeys,
  Forall (fun c => 3 <= len (Raw c)) vs -> answers (thridAsKey_loop vs keys numKeys).
Proof.
  induction vs as [|v vs IH]; intros keys numKeys Hall; simpl.
  - left. eauto.
  - destruct (raw2Bulk_ok v (Forall_inv Hall)) as [b Hb]. rewrite Hb. cbn [bind].
    destruct (len (keys ++ [b]) =? numKeys); [left; eauto|].
    apply IH. exact (Forall_inv_tail Hall).
Qed.

Lemma Keys_answers (r : Resp) :
  Forall (fun c => 3 <= len (Raw c)) (Multi r) -> answers (Keys r).
Proof.
  intros Hall. unfold Keys.
  destruct (Op_answers r Hall) as [[name Hop]|[Hop|Hop]]; rewrite Hop; cbn [bind];
    [|right; left; reflexivity|right; right; reflexivity].
  assert (Hne : Multi r <> []).
  { intros E. unfold Op in Hop. rewrite E in Hop. discriminate. }
  destruct (lookup keyFun name) as [f|] eqn:El.
  - assert (f = thridAsKey) as ->.
    { unfold keyFun, thridAsKeyTbl in El. simpl in El.
      repeat match type of El with
             | (if ?b then _ else _) = _ => destruct b
             end; congruence. }
    unfold thridAsKey. destruct (len (Multi r) <? 4) eqn:E4; [left; eauto|].
    apply Z.ltb_ge in E4.
    destruct (Multi r) as [|c0 [|c1 [|c2 [|c3 cs]]]] eqn:EM; try (exfalso; len_lia).
    change (index (c0 :: c1 :: c2 :: c3 :: cs) 2) with (Ok c2). cbn [bind].
    assert (H2 : 3 <= len (Raw c2)).
    { apply Forall_inv_tail, Forall_inv_tail, Forall_inv in Hall. exact Hall. }
    destruct (raw2Bulk_ok c2 H2) as [b Hb]. rewrite Hb. cbn [bind].
    destruct (Btoi_cases b) as [[_ He]|[_ [z Hz]]].
    + rewrite He. right. right. reflexivity.
    + rewrite Hz. cbn [bind].
      assert (Hsl : sliceFrom (c0 :: c1 :: c2 :: c3 :: cs) 3 = Ok (c3 :: cs))
        by (apply (sliceFrom_app [c0; c1; c2] (c3 :: cs)); reflexivity).
      rewrite Hsl. cbn [bind]. apply thridAsKey_loop_answers.
      apply Forall_inv_tail, Forall_inv_tail, Forall_inv_tail in Hall. exact Hall.
  - unfold defaultGetKeys. destruct (Multi r) as [|c0 cs] eqn:EM; [contradiction|].
    assert (Hsl : sliceFrom (c0 :: cs) 1 = Ok cs)
      by (apply (sliceFrom_app [c0] cs); reflexivity).
    rewrite Hsl. cbn [bind]. destruct (len cs =? 0); [left; eauto|].
    apply defaultGetKeys_loop_answers. exact (Forall_inv_tail Hall).
Qed.

Lemma Bytes_loop_ok (rs : list Resp) : forall buf,
  Forall (fun c => exists bs, Bytes c = Ok bs) rs -> exists bs, Bytes_loop rs buf = Ok bs.
Proof.
  induction rs as [|c rs IH]; intros buf Hall; simpl; [eauto|].
  destruct (Forall_inv Hall) as [bs Hbs]. rewrite Hbs. cbn [bind].
  apply IH. exact (Forall_inv_tail Hall).
Qed.

Lemma Parse_Bytes_ok (fuel : nat) :
  forall (m : list byte) (r : Resp) (rest : list byte),
    Parse fuel m = Ok (r, rest) -> exists bs, Bytes r = Ok bs.
Proof.
  induction fuel as [|fuel IH]; intros m r rest H; [discriminate|].
  destruct (Parse_inv _ _ _ _ H) as (line & r1 & c & Hline & Hc & Hbr).
  destruct Hbr as [_ -> _ | _ -> _ | _ -> _ | b size raw _ _ _ _ ->
                  | b i multi _ _ _ _ Hm -> | b i _ _ _ _ -> _ | multi _ _ Hloop -> _];
    try (eexists; reflexivity).
  - rewrite Bytes_multi. apply Bytes_loop_ok. apply Parse_multi_Forall in Hm.
    rewrite Forall_forall in *. intros c' Hin.
    destruct (Hm _ Hin) as (m' & rest' & Hp). exact (IH _ _ _ Hp).
  - rewrite Bytes_multi. apply Bytes_loop_ok.
    apply (Parse_telnet_loop_Forall (fun c => exists bs, Bytes c = Ok bs)) with (3 := Hloop);
      [|constructor].
    intros str. eexists. reflexivity.
Qed.

(** X12.  On every value that [decode] returns, also one read from a telnet
    command, nothing panics: [Bytes] returns the serialization, [Keys]
    returns keys or fails with "invalid resp" or "Invalid number", and [Key]
    returns a key. *)
Theorem decoded_is_safe (m : list byte) (r : Resp) (rest : list byte) :
  decode m = Ok (r, rest) ->
  (exists bs, Bytes r = Ok bs) /\
  ((exists ks, Keys r = Ok ks) \/ Keys r = Err InvalidResp \/ Keys r = Err InvalidNumber) /\
  (exists k, Key r = Ok k).
Proof.
  intros H. destruct (Parse_raw_len _ _ _ _ H) as [_ Hall].
  pose proof (Keys_answers r Hall) as HK.
  repeat apply conj.
  - exact (Parse_Bytes_ok _ _ _ _ H).
  - exact HK.
  - unfold Key. destruct HK as [[ks ->]|[->| ->]]; [destruct ks|..]; eauto.
Qed.

Lemma decoded_is_safe_witness :
  exists r,
    decode (wire ["*3"; ":1"; "$-1"; "*0"]) = Ok (r, []) /\
    (exists bs, Bytes r = Ok bs) /\
    ((exists ks, Keys r = Ok ks) \/ Keys r = Err InvalidResp \/ Keys r = Err InvalidNumber) /\
    (exists k, Key r = Ok k).
Proof.
  exists_decoded. split; [vm_compute; reflexivity|].
  apply (decoded_is_safe (wire ["*3"; ":1"; "$-1"; "*0"]) _ []). vm_compute. reflexivity.
Defined.

(** ** Third-argument strategy: how many keys the loop takes *)

Lemma thridAsKey_loop_takes (vs : list Resp) (bs : list (list byte)) :
  Forall2 (fun v b => raw2Bulk v = Ok b) vs bs ->
  forall (keys : list (list byte)) (numKeys : Z),
    thridAsKey_loop vs keys numKeys =
    Ok (keys ++ firstn (Z.to_nat (taken (len keys) numKeys (len vs))) bs).
Proof.
  induction 1 as [|v b vs bs Hv Hall IH]; intros keys numKeys.
  - simpl. unfold taken. destruct (_ && _); rewrite firstn_nil, app_nil_r; reflexivity.
  - cbn [thridAsKey_loop]. rewrite Hv. cbn [bind].
    assert (Hlk : len (keys ++ [b]) = len keys + 1) by len_lia.
    assert (Hlv : len (v :: vs) = len vs + 1) by len_lia.
    pose proof (len_nonneg keys) as Hk0. pose proof (len_nonneg vs) as Hv0.
    destruct (len (keys ++ [b]) =? numKeys) eqn:E.
    + apply Z.eqb_eq in E. unfold taken.
      assert (Hin : ((len keys <? numKeys) && (numKeys <=? len keys + len (v :: vs))) = true).
      { apply andb_true_iff. split; [apply Z.ltb_lt|apply Z.leb_le]; lia. }
      rewrite Hin. replace (numKeys - len keys) with 1 by lia. reflexivity.
    + apply Z.eqb_neq in E. rewrite IH, Hlk, <- app_assoc. f_equal. f_equal.
      cbn [app].
      assert (Ht : Z.to_nat (taken (len keys) numKeys (len (v :: vs))) =
                   S (Z.to_nat (taken (len keys + 1) numKeys (len vs)))).
      { unfold taken. rewrite Hlv.
        destruct ((len keys <? numKeys) && (numKeys <=? len keys + (len vs + 1))) eqn:E1;
          destruct ((len keys + 1 <? numKeys) && (numKeys <=? len keys + 1 + len vs)) eqn:E2;
          rewrite ?andb_true_iff, ?andb_false_iff, ?Z.ltb_lt, ?Z.leb_le, ?Z.ltb_ge, ?Z.leb_gt
            in E1, E2; lia. }
      rewrite Ht. reflexivity.
Qed.

(** X13.  [thridAsKey] on a command of at least 4 children whose third
    child reads as the number [numKeys]: it returns the children from the
    fourth on, each stripped of its first byte and its last two, and stops
    after [numKeys] of them when [1 <= numKeys <= ] the number of those
    children; for any other [numKeys] (zero, negative, too large) it returns
    all of them. *)
Theorem thridAsKey_takes (r : Resp) (m2 : Resp) (b : list byte) (numKeys : Z)
  (bs : list (list byte)) :
  4 <= len (Multi r) ->
  index (Multi r) 2 = Ok m2 -> raw2Bulk m2 = Ok b -> Btoi b = Ok numKeys ->
  Forall2 (fun v k => raw2Bulk v = Ok k) (skipn 3 (Multi r)) bs ->
  thridAsKey r =
  Ok (if (1 <=? numKeys) && (numKeys <=? len bs) then firstn (Z.to_nat numKeys) bs else bs).
Proof.
  intros H4 Hm2 Hb Hn Hall. unfold thridAsKey.
  assert (E4 : (len (Multi r) <? 4) = false) by (now apply Z.ltb_ge). rewrite E4.
  rewrite Hm2. cbn [bind]. rewrite Hb. cbn [bind]. rewrite Hn. cbn [bind].
  assert (Hsl : sliceFrom (Multi r) 3 = Ok (skipn 3 (Multi r))).
  { rewrite <- (firstn_skipn 3 (Multi r)) at 1. apply sliceFrom_app.
    unfold len in *. rewrite length_firstn. lia. }
  rewrite Hsl. cbn [bind]. rewrite (thridAsKey_loop_takes _ _ Hall). cbn [app].
  assert (Hlen : len (skipn 3 (Multi r)) = len bs).
  { unfold len. f_equal. exact (Forall2_length Hall). }
  unfold taken. rewrite Hlen. change (len (@nil (list byte))) with 0.
  replace (0 <? numKeys) with (1 <=? numKeys)
    by (destruct (1 <=? numKeys) eqn:E1; destruct (0 <? numKeys) eqn:E2;
        rewrite ?Z.leb_le, ?Z.ltb_lt, ?Z.leb_gt, ?Z.ltb_ge in *; try reflexivity; lia).
  rewrite Z.add_0_l, Z.sub_0_r.
  destruct ((1 <=? numKeys) && (numKeys <=? len bs)); [reflexivity|].
  unfold len. rewrite Nat2Z.id. now rewrite firstn_all.
Qed.

Lemma thridAsKey_takes_witness :
  let cmd := fun numKeys : string =>
    mkResp MultiResp (wire ["*6"])
      [mkResp BulkResp (wire ["$4"; "EVAL"]) []; mkResp BulkResp (wire ["$1"; "s"]) [];
       mkResp IntegerResp (wire [numKeys]) [];
       mkResp BulkResp (wire ["$2"; "k1"]) []; mkResp BulkResp (wire ["$2"; "k2"]) [];
       mkResp BulkResp (wire ["$2"; "a1"]) []] in
  let k1 := bytes "2" ++ NEW_LINE ++ bytes "k1" in
  let k2 := bytes "2" ++ NEW_LINE ++ bytes "k2" in
  let a1 := bytes "2" ++ NEW_LINE ++ bytes "a1" in
  decode (wire ["*6"; "$4"; "EVAL"; "$1"; "s"; ":2"; "$2"; "k1"; "$2"; "k2"; "$2"; "a1"])
  = Ok (cmd ":2", []) /\
  thridAsKey (cmd ":2") = Ok [k1; k2] /\
  thridAsKey (cmd ":0") = Ok [k1; k2; a1] /\
  thridAsKey (cmd ":7") = Ok [k1; k2; a1].
Proof.
  intros cmd k1 k2 a1.
  assert (Hall : forall n, Forall2 (fun v k => raw2Bulk v = Ok k) (skipn 3 (Multi (cmd n)))
                             [k1; k2; a1])
    by (intros n; repeat constructor).
  repeat apply conj.
  - vm_compute. reflexivity.
  - rewrite (thridAsKey_takes (cmd ":2") _ (bytes "2") 2 _
               ltac:(vm_compute; discriminate) eq_refl eq_refl eq_refl (Hall _)).
    reflexivity.
  - rewrite (thridAsKey_takes (cmd ":0") _ (bytes "0") 0 _
               ltac:(vm_compute; discriminate) eq_refl eq_refl eq_refl (Hall _)).
    reflexivity.
  - rewrite (thridAsKey_takes (cmd ":7") _ (bytes "7") 7 _
               ltac:(vm_compute; discriminate) eq_refl eq_refl eq_refl (Hall _)).
    reflexivity.
Defined.

(** ** Decoder after encoder *)

Lemma ReadBulk_parts (size : Z) (raw0 buf rest : list byte) :
  0 <= size -> len buf = size ->
  ReadBulk (buf ++ NEW_LINE ++ rest) size raw0 = Ok (raw0 ++ buf ++ NEW_LINE, rest).
Proof.
  intros Hpos Hlen. unfold ReadBulk.
  assert (Hneg : (size <? 0) = false) by (now apply Z.ltb_ge). rewrite Hneg.
  assert (Hfull : ReadFull (buf ++ NEW_LINE ++ rest) (Z.to_nat size) = Ok (buf, NEW_LINE ++ rest)).
  { unfold ReadFull.
    assert (Hl' : Z.to_nat size = length buf) by (unfold len in Hlen; lia).
    rewrite Hl'.
    assert (E : (length buf <=? length (buf ++ NEW_LINE ++ rest))%nat = true)
      by (apply Nat.leb_le; rewrite length_app; lia).
    rewrite E, firstn_app, firstn_all, skipn_app, skipn_all, Nat.sub_diag. simpl.
    now rewrite app_nil_r. }
  rewrite Hfull. cbn [bind].
  change (NEW_LINE ++ rest) with (([] ++ [CR; LF]) ++ rest).
  rewrite readLine_complete by (intros []). cbn [bind].
  change (negb (len ([] ++ [CR; LF]) =? 2)) with false. cbv iota.
  rewrite <- !app_assoc. reflexivity.
Qed.

Lemma ReadBulk_cancel (w rest : list byte) (size : Z) (raw0 raw : list byte) :
  ReadBulk (w ++ rest) size raw0 = Ok (raw, rest) -> ReadBulk w size raw0 = Ok (raw, []).
Proof.
  intros H. destruct (ReadBulk_inv _ _ _ _ _ H) as [(Hneg & -> & Hr) | (Hpos & buf & Hlen & -> & Hr)].
  - assert (w = []) as ->.
    { apply (f_equal (@length byte)) in Hr. rewrite length_app in Hr.
      destruct w; [reflexivity|simpl in Hr; lia]. }
    unfold ReadBulk. apply Z.ltb_lt in Hneg. now rewrite Hneg.
  - assert (w = buf ++ NEW_LINE) as ->.
    { apply (app_inv_tail rest). rewrite Hr, <- !app_assoc. reflexivity. }
    pose proof (ReadBulk_parts size raw0 buf [] Hpos ltac:(unfold len; lia)) as Hp.
    rewrite app_nil_r in Hp. exact Hp.
Qed.

Section Cancel.

Variable parse : list byte -> res (Resp * list byte).

Hypothesis parse_reads :
  forall m r rest, parse m = Ok (r, rest) -> exists used, m = used ++ rest.
Hypothesis parse_app :
  forall tail m r rest, parse m = Ok (r, rest) -> parse (m ++ tail) = Ok (r, rest ++ tail).
Hypothesis parse_cancel :
  forall u rest r, parse (u ++ rest) = Ok (r, rest) -> parse u = Ok (r, []).

Lemma Parse_multi_cancel (k : nat) :
  forall (w rest : list byte) (multi : list Resp),
    Parse_multi parse k (w ++ rest) = Ok (multi, rest) ->
    Parse_multi parse k w = Ok (multi, []).
Proof.
  induction k as [|k IH]; intros w rest multi H; simpl in H.
  - injection H as <- Hr.
    assert (w = []) as ->.
    { apply (f_equal (@length byte)) in Hr. rewrite length_app in Hr.
      destruct w; [reflexivity|simpl in Hr; lia]. }
    reflexivity.
  - bind_inv H. destruct a as [c r2]. bind_inv H. destruct a as [multi' r3].
    injection H as <- <-.
    destruct (Parse_multi_reads parse parse_reads _ _ _ _ Hbind0) as (w2 & ->).
    destruct (parse_reads _ _ _ Hbind) as (used & Hu).
    assert (w = used ++ w2) as ->.
    { apply (app_inv_tail r3). rewrite Hu, <- !app_assoc. reflexivity. }
    rewrite <- app_assoc in Hbind.
    pose proof (parse_cancel _ _ _ Hbind) as Hc.
    simpl. rewrite (parse_app w2 _ _ _ Hc). cbn [bind app].
    rewrite (IH _ _ _ Hbind0). reflexivity.
Qed.

End Cancel.

(** What [Parse] has read decodes on its own to the same value. *)
Lemma Parse_cancel (fuel : nat) :
  forall (u rest : list byte) (r : Resp),
    Parse fuel (u ++ rest) = Ok (r, rest) -> Parse fuel u = Ok (r, []).
Proof.
  induction fuel as [|fuel IH]; intros u rest r H; [discriminate|].
  destruct (Parse_inv _ _ _ _ H) as (line & r1 & c & Hline & Hc & Hbr).
  destruct (readLine_inv _ _ _ Hline) as (pre & Hl & Hnot & Hm).
  assert (Hw : exists w, r1 = w ++ rest).
  { destruct Hbr as [_ _ -> | _ _ -> | _ _ -> | b size raw _ _ _ Hrb _
                    | b i multi _ _ _ _ Hmulti _ | b i _ _ _ _ _ -> | multi _ _ _ _ ->];
      try (now exists []).
    - destruct (ReadBulk_inv _ _ _ _ _ Hrb) as [(_ & _ & ->) | (_ & buf & _ & _ & ->)];
        [now exists []|]. exists (buf ++ NEW_LINE). now rewrite <- !app_assoc.
    - apply (Parse_multi_reads (Parse fuel)) with (k := Z.to_nat i) (multi := multi);
        [|assumption].
      intros m' r' rest' Hp. destruct (Parse_reads _ _ _ _ Hp) as (used & -> & _).
      now exists used. }
  destruct Hw as (w & ->).
  assert (u = line ++ w) as ->.
  { apply (app_inv_tail rest). rewrite Hm, <- app_assoc. reflexivity. }
  assert (Hline' : readLine (line ++ w) = Ok (line, w)).
  { subst line. now apply readLine_complete. }
  cbn [Parse]. rewrite Hline'. cbn [bind]. rewrite Hc. cbn [bind].
  destruct Hbr as [-> -> Hr | -> -> Hr | -> -> Hr | b size raw -> Hb Hsz Hrb ->
                  | b i multi -> Hb Hi Hpos Hmulti -> | b i -> Hb Hi Hneg -> Hr
                  | multi Hstar Hlet Hloop -> Hr].
  1-3: assert (w = []) as -> by
      (apply (f_equal (@length byte)) in Hr; rewrite length_app in Hr;
       destruct w; [reflexivity|simpl in Hr; lia]); reflexivity.
  - cbn. rewrite Hb. cbn [bind]. rewrite Hsz. cbn [bind].
    rewrite (ReadBulk_cancel _ _ _ _ _ Hrb). reflexivity.
  - cbn. rewrite Hb. cbn [bind]. rewrite Hi. cbn [bind].
    assert (Hle : (0 <=? i) = true) by (now apply Z.leb_le). rewrite Hle.
    rewrite (Parse_multi_cancel (Parse fuel)) with (rest := rest) (multi := multi).
    + reflexivity.
    + intros m' r' rest' Hp. destruct (Parse_reads _ _ _ _ Hp) as (used & -> & _).
      now exists used.
    + intros tail m' r' rest'. apply Parse_app.
    + exact IH.
    + exact Hmulti.
  - assert (w = []) as -> by
      (apply (f_equal (@length byte)) in Hr; rewrite length_app in Hr;
       destruct w; [reflexivity|simpl in Hr; lia]).
    cbn. rewrite Hb. cbn [bind]. rewrite Hi. cbn [bind].
    assert (Hle : (0 <=? i) = false) by (now apply Z.leb_gt). rewrite Hle. reflexivity.
  - assert (w = []) as -> by
      (apply (f_equal (@length byte)) in Hr; rewrite length_app in Hr;
       destruct w; [reflexivity|simpl in Hr; lia]).
    assert (E1 : Byte.eqb c "-"%byte = false).
    { destruct (Byte.eqb c "-"%byte) eqn:E; [|reflexivity].
      apply Byte.byte_dec_bl in E. subst c. discriminate Hlet. }
    assert (E2 : Byte.eqb c "+"%byte = false).
    { destruct (Byte.eqb c "+"%byte) eqn:E; [|reflexivity].
      apply Byte.byte_dec_bl in E. subst c. discriminate Hlet. }
    assert (E3 : Byte.eqb c ":"%byte = false).
    { destruct (Byte.eqb c ":"%byte) eqn:E; [|reflexivity].
      apply Byte.byte_dec_bl in E. subst c. discriminate Hlet. }
    assert (E4 : Byte.eqb c "$"%byte = false).
    { destruct (Byte.eqb c "$"%byte) eqn:E; [|reflexivity].
      apply Byte.byte_dec_bl in E. subst c. discriminate Hlet. }
    assert (E5 : Byte.eqb c "*"%byte = false).
    { destruct (Byte.eqb c "*"%byte) eqn:E; [|reflexivity].
      apply Byte.byte_dec_bl in E. contradiction. }
    rewrite E1, E2, E3, E4, E5, Hlet. cbn [negb]. rewrite Hloop. reflexivity.
Qed.

(** X14.  Decoding what [Bytes] returns gives the value back.  For every
    value [r] that [decode] reads without its branch for telnet commands,
    [Bytes r] decodes, as a whole, to [r] again. *)
Theorem decode_Bytes (m : list byte) (r : Resp) (rest : list byte) :
  decode m = Ok (r, rest) -> framed m = true ->
  exists bs, Bytes r = Ok bs /\ decode bs = Ok (r, []).
Proof.
  intros H Hf. destruct (Parse_roundtrip _ _ _ _ H Hf) as (bs & Hbs & ->).
  exists bs. split; [exact Hbs|].
  unfold decode in *. apply Parse_cancel in H. rewrite <- H.
  symmetry. apply Parse_fuel_mono; [rewrite length_app; lia|]. apply Parse_fuel. lia.
Qed.

Lemma decode_Bytes_witness :
  exists r,
    decode (wire ["*2"; "$3"; "GET"; "*1"; ":5"; "+OK"]) = Ok (r, wire ["+OK"]) /\
    exists bs, Bytes r = Ok bs /\ decode bs = Ok (r, []).
Proof.
  exists_decoded. split; [vm_compute; reflexivity|].
  apply (decode_Bytes (wire ["*2"; "$3"; "GET"; "*1"; ":5"; "+OK"]) _ (wire ["+OK"]));
    vm_compute; reflexivity.
Defined.

(** ** Telnet commands *)

Lemma Parse_telnet_loop_words (strs : list (list byte)) : forall acc : list Resp,
  Parse_telnet_loop strs acc =
  Ok (acc ++ map bulkNode (filter (fun s => 0 <? len s) (map TrimSpace strs))).
Proof.
  induction strs as [|s strs IH]; intros acc; simpl.
  - now rewrite app_nil_r.
  - destruct (0 <? len (TrimSpace s)).
    + rewrite IH, <- app_assoc. reflexivity.
    + apply IH.
Qed.

Lemma IsLetter_not_space (c : byte) :
  IsLetter c = true -> isSpace c = false /\ Byte.eqb c SP = false /\ c <> LF.
Proof.
  intros H. unfold IsLetter in H.
  change (code "a"%byte) with 97 in H. change (code "z"%byte) with 122 in H.
  change (code "A"%byte) with 65 in H. change (code "Z"%byte) with 90 in H.
  assert (Hc : 65 <= code c).
  { destruct ((97 <=? code c) && (code c <=? 122)) eqn:E1.
    - apply andb_true_iff in E1 as [E1 _]. apply Z.leb_le in E1. lia.
    - destruct ((65 <=? code c) && (code c <=? 90)) eqn:E2; [|discriminate].
      apply andb_true_iff in E2 as [E2 _]. now apply Z.leb_le in E2. }
  repeat apply conj.
  - unfold isSpace. apply orb_false_iff. split.
    + apply andb_false_iff. right. apply Z.leb_gt. lia.
    + apply Z.eqb_neq. lia.
  - destruct (Byte.eqb c SP) eqn:E; [|reflexivity]. apply Byte.byte_dec_bl in E. subst c.
    vm_compute in Hc. exfalso. now apply Hc.
  - intros ->. vm_compute in Hc. now apply Hc.
Qed.

Lemma TrimLeft_keeps_last (l : list byte) (c : byte) :
  isSpace c = false -> exists l', TrimLeft (l ++ [c]) = l' ++ [c].
Proof.
  intros Hc. induction l as [|x l IH]; simpl.
  - rewrite Hc. now exists [].
  - destruct (isSpace x); [exact IH|]. now exists (x :: l).
Qed.

Lemma length_TrimLeft (s : list byte) : (length (TrimLeft s) <= length s)%nat.
Proof.
  induction s as [|c s IH]; simpl; [lia|]. destruct (isSpace c); simpl; lia.
Qed.

Lemma length_TrimSpace (s : list byte) : (length (TrimSpace s) <= length s)%nat.
Proof.
  unfold TrimSpace. rewrite length_rev.
  pose proof (length_TrimLeft (rev (TrimLeft s))) as H1. rewrite length_rev in H1.
  pose proof (length_TrimLeft s). lia.
Qed.

Lemma Split_lengths (sep : byte) (s : list byte) :
  Forall (fun p => (length p <= length s)%nat) (Split s sep).
Proof.
  induction s as [|c s IH]; simpl; [repeat constructor|].
  destruct (Byte.eqb c sep).
  - constructor; [simpl; lia|]. eapply Forall_impl; [|exact IH]. simpl. intros; lia.
  - destruct (Split s sep) as [|tok toks].
    { constructor; [simpl; lia|constructor]. }
    constructor.
    + apply Forall_inv in IH. simpl. lia.
    + apply Forall_inv_tail in IH. eapply Forall_impl; [|exact IH]. simpl. intros; lia.
Qed.

(** The first word of a line that starts with a letter is not empty. *)
Lemma words_first (c : byte) (line : list byte) :
  IsLetter c = true ->
  exists w ws, words (c :: line) = w :: ws /\ w <> [].
Proof.
  intros Hlet. destruct (IsLetter_not_space c Hlet) as (Hsp & Hne & _).
  unfold words. cbn [Split]. rewrite Hne.
  assert (Hfirst : exists tok toks, (match Split line SP with
                                     | tok :: toks => (c :: tok) :: toks
                                     | [] => [[c]]
                                     end) = (c :: tok) :: toks).
  { destruct (Split line SP); eauto. }
  destruct Hfirst as (tok & toks & ->). cbn [map filter].
  assert (Hw : TrimSpace (c :: tok) <> []).
  { unfold TrimSpace. cbn [TrimLeft]. rewrite Hsp. cbn [rev].
    destruct (TrimLeft_keeps_last (rev tok) c Hsp) as (l' & ->).
    rewrite rev_app_distr. discriminate. }
  assert (Hpos : (0 <? len (TrimSpace (c :: tok))) = true).
  { apply Z.ltb_lt. destruct (TrimSpace (c :: tok)); [contradiction|len_lia]. }
  rewrite Hpos. eauto.
Qed.

Lemma strconv_Itoa_digits (z : Z) : 0 <= z -> Forall isDigit (strconv_Itoa z).
Proof.
  intros Hz. destruct z as [|p|p]; [| |lia].
  - repeat constructor; vm_compute; discriminate.
  - unfold strconv_Itoa. cbn [Z.to_int NilZero.string_of_int].
    destruct (to_uint_head p) as [Hnil _].
    assert (Hz' : NilZero.string_of_uint (Pos.to_uint p) =
                  NilEmpty.string_of_uint (Pos.to_uint p)).
    { unfold NilZero.string_of_uint. destruct (Pos.to_uint p); [contradiction|reflexivity..]. }
    rewrite Hz'. apply text_digits.
Qed.

Lemma digits_no_LF (l : list byte) : Forall isDigit l -> ~ In LF l.
Proof.
  intros Hall Hin. rewrite Forall_forall in Hall. specialize (Hall _ Hin).
  unfold isDigit in Hall. vm_compute in Hall. destruct Hall as [H _]. now apply H.
Qed.

(** The node built for a word is a bulk string that holds the word. *)
Lemma bulkNode_BulkOf (str : list byte) :
  len str < 2 ^ 63 -> BulkOf (strconv_Itoa (len str)) (len str) str (bulkNode str).
Proof.
  intros Hlen. pose proof (len_nonneg str) as H0. unfold BulkOf. repeat apply conj.
  - apply digits_no_LF. now apply strconv_Itoa_digits.
  - apply Btoi_strconv_Itoa. lia.
  - exact H0.
  - unfold len. lia.
  - unfold bulkNode. cbn [Raw]. rewrite <- !app_assoc. reflexivity.
Qed.

(** X15.  Telnet commands.  A line of ASCII text that starts with a letter
    decodes to an array with one Bulk child per word of the line; [Op] is the
    first word; and when that word is not in the strategy table, [Keys]
    returns the other words, in order.  (The line is taken to be ASCII because
    [TrimSpace] above is [strings.TrimSpace] on ASCII text only.) *)
Theorem telnet_command (m line rest : list byte) (c : byte) :
  readLine m = Ok (line, rest) -> index m 0 = Ok c -> IsLetter c = true ->
  Forall (fun x => code x < 128) line -> len line < 2 ^ 63 ->
  exists r name args,
    decode m = Ok (r, rest) /\
    words line = name :: args /\
    Type_ r = MultiResp /\ Multi r = map bulkNode (name :: args) /\
    Op r = Ok name /\
    (~ In name thridAsKeyTbl -> Keys r = Ok args).
Proof.
  intros Hline Hc Hlet _ Hlen.
  destruct (readLine_inv _ _ _ Hline) as (pre & Hl & Hnot & Hm).
  assert (Hc' : index line 0 = Ok c).
  { subst m line. destruct pre; unfold index in *; simpl in *; exact Hc. }
  destruct line as [|c0 line']; [discriminate|].
  assert (c0 = c) as -> by (unfold index in Hc'; simpl in Hc'; congruence).
  destruct (words_first c line' Hlet) as (name & args & Hw & Hname).
  set (r := mkResp MultiResp
              (bytes "*" ++ strconv_Itoa (len (Split (c :: line') SP)) ++ NEW_LINE)
              (map bulkNode (name :: args))).
  assert (Hdec : decode m = Ok (r, rest)).
  { unfold decode. cbn [Parse]. rewrite Hline. cbn [bind]. rewrite Hc'. cbn [bind].
    assert (E1 : Byte.eqb c "-"%byte = false).
    { destruct (Byte.eqb c "-"%byte) eqn:E; [|reflexivity].
      apply Byte.byte_dec_bl in E. subst c. discriminate Hlet. }
    assert (E2 : Byte.eqb c "+"%byte = false).
    { destruct (Byte.eqb c "+"%byte) eqn:E; [|reflexivity].
      apply Byte.byte_dec_bl in E. subst c. discriminate Hlet. }
    assert (E3 : Byte.eqb c ":"%byte = false).
    { destruct (Byte.eqb c ":"%byte) eqn:E; [|reflexivity].
      apply Byte.byte_dec_bl in E. subst c. discriminate Hlet. }
    assert (E4 : Byte.eqb c "$"%byte = false).
    { destruct (Byte.eqb c "$"%byte) eqn:E; [|reflexivity].
      apply Byte.byte_dec_bl in E. subst c. discriminate Hlet. }
    assert (E5 : Byte.eqb c "*"%byte = false).
    { destruct (Byte.eqb c "*"%byte) eqn:E; [|reflexivity].
      apply Byte.byte_dec_bl in E. subst c. discriminate Hlet. }
    rewrite E1, E2, E3, E4, E5, Hlet. cbn [negb].
    rewrite Parse_telnet_loop_words. cbn [bind app]. fold (words (c :: line')).
    rewrite Hw. reflexivity. }
  assert (Hwlen : Forall (fun w => len w < 2 ^ 63) (name :: args)).
  { rewrite <- Hw. unfold words. apply Forall_forall. intros w Hin.
    apply filter_In in Hin as [Hin _]. apply in_map_iff in Hin as (p & <- & Hp).
    pose proof (Split_lengths SP (c :: line')) as Hs. rewrite Forall_forall in Hs.
    specialize (Hs _ Hp). pose proof (length_TrimSpace p). unfold len in *. lia. }
  assert (Hshape : Forall (fun ch => exists pre size buf, BulkOf pre size buf ch)
                     (map bulkNode (name :: args))).
  { apply Forall_map. eapply Forall_impl; [|exact Hwlen]. intros w Hw'.
    exists (strconv_Itoa (len w)), (len w), w. now apply bulkNode_BulkOf. }
  assert (Hpay : forall ws, Forall (fun w => len w < 2 ^ 63) ws ->
                            map bulkPayload (map bulkNode ws) = ws).
  { induction 1 as [|w ws Hw' _ IH]; [reflexivity|]. simpl. rewrite IH. f_equal.
    exact (proj2 (proj2 (proj2 (BulkOf_extract _ _ _ _ (bulkNode_BulkOf w Hw'))))). }
  assert (Hop : Op r = Ok name).
  { rewrite (Op_payload r (bulkNode name) (map bulkNode args) _ _ _ eq_refl
               (bulkNode_BulkOf name (Forall_inv Hwlen))).
    f_equal.
    exact (proj2 (proj2 (proj2 (BulkOf_extract _ _ _ _
                                  (bulkNode_BulkOf name (Forall_inv Hwlen)))))). }
  exists r, name, args. repeat apply conj; try reflexivity; try assumption.
  intros Hout. unfold Keys. rewrite Hop. cbn [bind]. rewrite (lookup_keyFun_out _ Hout).
  unfold defaultGetKeys. cbn [Multi r map].
  assert (Hsl : sliceFrom (bulkNode name :: map bulkNode args) 1 = Ok (map bulkNode args))
    by (apply (sliceFrom_app [bulkNode name]); reflexivity).
  rewrite Hsl. cbn [bind].
  destruct (len (map bulkNode args) =? 0) eqn:E0.
  - destruct args; [reflexivity|]. apply Z.eqb_eq in E0. simpl in E0. len_lia.
  - rewrite defaultGetKeys_loop_payloads by (exact (Forall_inv_tail Hshape)).
    cbn [app]. f_equal. apply Hpay. exact (Forall_inv_tail Hwlen).
Qed.

Lemma telnet_command_witness :
  exists r name args,
    decode (wire ["set  foo bar "; "+OK"]) = Ok (r, wire ["+OK"]) /\
    words (wire ["set  foo bar "]) = name :: args /\
    Type_ r = MultiResp /\ Multi r = map bulkNode (name :: args) /\
    Op r = Ok name /\
    (~ In name thridAsKeyTbl -> Keys r = Ok args).
Proof.
  apply (telnet_command (wire ["set  foo bar "; "+OK"]) (wire ["set  foo bar "])
           (wire ["+OK"]) "s"%byte); try (vm_compute; reflexivity).
  repeat constructor.
Defined.
